(** * TorchHook: routing, fixed-precision arithmetic and (de)serialization

    A shallow embedding of [syft/core/hooks/torch/hook.py].  Python objects
    are records of the attributes the hook reads and writes; an attribute
    that may be missing ([hasattr]) is an [option].  A Python exception is a
    value of [exn]; code that can raise returns a [result].  The numeric
    kernel (torch) is an external collaborator: its tensor storage and its
    elementwise operations are the fields of the class [Kernel]. *)

From Stdlib Require Import ZArith List String Bool Lia.
From stdpp Require Import base gmap strings list.
Import ListNotations.

Local Open Scope string_scope.
Local Open Scope list_scope.
Local Open Scope Z_scope.
Set Warnings "-register-all".

(** ** Exceptions *)

Inductive exn : Type :=
| OverflowError
| AttributeError (msg : string)
| NotImplementedError (msg : string)
| TypeError (msg : string)
| KeyError (key : string)
| IndexError (msg : string)
| UnboundLocalError (name : string)
| TransportError (msg : string).

(** Messages of the [raise] statements of hook.py (whitespace of the
    multi-line literals normalised). *)
Definition mixed_msg : string :=
  "Tried to call fixed precision operation on non-fixed precision tensor and a regular tensor.".
Definition nonfixed_msg : string :=
  "Tried to call fixed precision operation on non-fixed precision tensors".
Definition mpc_msg : string :=
  "MPC not yet implemented: Torch objects need to be on the same machine in order to compute with them.".
Definition single_owner_msg : string :=
  "Only able to get_ tensors belonging to a single worker right now.".
Definition non_torch_msg (torch_type : string) : string :=
  ("Tried to receive a non-Torch object of type " ++ torch_type ++ ".")%string.

(** What the interpreter raises when an attribute lookup fails (the class
    name that Python prints in front is left out). *)
Definition no_attribute (name : string) : exn :=
  AttributeError ("object has no attribute '" ++ name ++ "'")%string.

(** The error names of the specification, as the exceptions hook.py raises. *)
Definition PrecisionOverflowError : exn := OverflowError.
Definition PrecisionMismatchError : exn := AttributeError mixed_msg.
Definition UnsupportedMultiPartyError : exn := NotImplementedError mpc_msg.
Definition MultiOwnerNotSupportedError : exn := NotImplementedError single_owner_msg.

(** A type-guard rejection: the guard's own [KeyError], or the [TypeError]
    into which [_assemble_result_pointer] turns it. *)
Definition UntrustedTypeError (name : string) (e : exn) : Prop :=
  e = KeyError name \/ e = TypeError (non_torch_msg name).

Inductive result (A : Type) : Type :=
| Ok (a : A)
| Raise (e : exn).
Arguments Ok {A} a.
Arguments Raise {A} e.

Definition rbind {A B : Type} (r : result A) (k : A -> result B) : result B :=
  match r with
  | Ok a => k a
  | Raise e => Raise e
  end.

Declare Scope res_scope.
Delimit Scope res_scope with res.
Notation "x <- c ;; k" := (rbind c (fun x => k))
  (at level 100, c at next level, right associativity) : res_scope.

(** ** Types and the numeric kernel *)

(** [tensor_types] and [var_types] of [TorchHook.__init__]. *)
Inductive torch_type : Type :=
| FloatTensor | DoubleTensor | HalfTensor | ByteTensor
| CharTensor | ShortTensor | IntTensor | LongTensor
| VariableT | ParameterT.

Global Instance torch_type_eq_dec : EqDecision torch_type.
Proof. solve_decision. Defined.

Definition tensor_types : list torch_type :=
  [FloatTensor; DoubleTensor; HalfTensor; ByteTensor;
   CharTensor; ShortTensor; IntTensor; LongTensor].
Definition var_types : list torch_type := [VariableT; ParameterT].
Definition tensorvar_types : list torch_type := tensor_types ++ [VariableT].

Definition is_tensor_type (ty : torch_type) : bool := bool_decide (ty ∈ tensor_types).
Definition is_var_type (ty : torch_type) : bool := bool_decide (ty ∈ var_types).

(** [self.type()] of a tensor and the class path that [ser] of a variable
    extracts from [str(self.__class__)]. *)
Definition type_name (ty : torch_type) : string :=
  match ty with
  | FloatTensor => "torch.FloatTensor"
  | DoubleTensor => "torch.DoubleTensor"
  | HalfTensor => "torch.HalfTensor"
  | ByteTensor => "torch.ByteTensor"
  | CharTensor => "torch.CharTensor"
  | ShortTensor => "torch.ShortTensor"
  | IntTensor => "torch.IntTensor"
  | LongTensor => "torch.LongTensor"
  | VariableT => "torch.autograd.variable.Variable"
  | ParameterT => "torch.nn.parameter.Parameter"
  end.

(** The Python number [10 ** p]: an int for [p >= 0], the float [10^p]
    (kept symbolic) below. *)
Inductive number : Type :=
| PyInt (z : Z)
| PyFloatPow10 (p : Z).

Definition pow10 (p : Z) : number :=
  if 0 <=? p then PyInt (10 ^ p) else PyFloatPow10 p.

(** The numeric kernel contract: storages, the numbers of a wire message and
    the original ([old_]) torch methods the hook calls.  Failures inside the
    kernel (shapes, division by zero) are the kernel's own and are not
    modelled: its operations are total on storages. *)
Class Kernel : Type := {
  T : Type;
  num : Type;
  old_mul : T -> T -> T;
  old_add : T -> T -> T;
  old_sub : T -> T -> T;
  old_div : T -> T -> T;
  old_mul_num : T -> number -> T;
  old_div_num : T -> number -> T;
  (** [tensor_type(0)]: the zero-dimensional storage. *)
  empty : torch_type -> T;
  (** [tensor_type(data)] and [tolist()]. *)
  of_list : torch_type -> list num -> T;
  tolist : T -> list num;
  (** [x.type(new_type)] on a storage whose type differs from [new_type]. *)
  convert : torch_type -> torch_type -> T -> T
}.

(** ** Objects *)

Section Model.
Context {K : Kernel}.

(** A tensor or variable, as the attributes the hook reads and writes.
    [None] is an attribute that is not set.  [fixed_precision] is the result
    of the attribute lookup, class attribute included (the overloaded
    [__new__] sets it to [False] on the class).  [old_data] and [old_grad]
    are the contents of a variable; [storage] is what [old_set_] replaces. *)
Inductive tensorvar : Type := TensorVar {
  tv_type : torch_type;
  obj_id : option Z;
  owners : option (list Z);
  is_pointer : option bool;
  fixed_precision : option bool;
  precision : option Z;
  storage : T;
  old_data : option tensorvar;
  old_grad : option tensorvar;
  data_registered : bool;
  requires_grad : bool;
  volatile : bool
}.

(** A freshly built object of the kernel: no attribute set. *)
Definition fresh_obj (ty : torch_type) (s : T) : tensorvar :=
  TensorVar ty None None None None None s None None false false false.

(** [out.precision = p; out.fixed_precision = True]. *)
Definition set_fixed (out : tensorvar) (p : Z) : tensorvar :=
  TensorVar (tv_type out) (obj_id out) (owners out) (is_pointer out)
    (Some true) (Some p) (storage out) (old_data out) (old_grad out)
    (data_registered out) (requires_grad out) (volatile out).

(** [obj.old_set_(source)]: the storage is replaced in place. *)
Definition old_set_ (obj : tensorvar) (s : T) : tensorvar :=
  TensorVar (tv_type obj) (obj_id obj) (owners obj) (is_pointer obj)
    (fixed_precision obj) (precision obj) s (old_data obj) (old_grad obj)
    (data_registered obj) (requires_grad obj) (volatile obj).

Definition set_is_pointer (obj : tensorvar) (b : bool) : tensorvar :=
  TensorVar (tv_type obj) (obj_id obj) (owners obj) (Some b)
    (fixed_precision obj) (precision obj) (storage obj) (old_data obj)
    (old_grad obj) (data_registered obj) (requires_grad obj) (volatile obj).

Definition set_registration (obj : tensorvar) (i : Z) (os : list Z) (p : bool)
  : tensorvar :=
  TensorVar (tv_type obj) (Some i) (Some os) (Some p)
    (fixed_precision obj) (precision obj) (storage obj) (old_data obj)
    (old_grad obj) (data_registered obj) (requires_grad obj) (volatile obj).

(** The setters of the [data] and [grad] properties: [self.old_data = new],
    [self.old_grad = new]. *)
Definition set_old_data (obj : tensorvar) (d : tensorvar) (registered : bool)
  : tensorvar :=
  TensorVar (tv_type obj) (obj_id obj) (owners obj) (is_pointer obj)
    (fixed_precision obj) (precision obj) (storage obj) (Some d)
    (old_grad obj) registered (requires_grad obj) (volatile obj).

Definition set_old_grad (obj : tensorvar) (g : option tensorvar) : tensorvar :=
  TensorVar (tv_type obj) (obj_id obj) (owners obj) (is_pointer obj)
    (fixed_precision obj) (precision obj) (storage obj) (old_data obj)
    g (data_registered obj) (requires_grad obj) (volatile obj).

(** Python values that reach the hook as arguments. *)
Inductive pyval : Type :=
| PNone
| PBool (b : bool)
| PInt (z : Z)
| PStr (s : string)
| PTensorVar (tv : tensorvar)
| PSeq (xs : list pyval)
| PDict (kvs : list (string * pyval)).

Definition truthy (v : pyval) : bool :=
  match v with
  | PNone => false
  | PBool b => b
  | PInt z => negb (z =? 0)
  | PStr s => negb (String.eqb s "")
  | PTensorVar _ => true
  | PSeq xs => negb (bool_decide (xs = []))
  | PDict kvs => negb (bool_decide (kvs = []))
  end.

(** ** Fixed-precision arithmetic ([_hook_fixed_precision_methods]) *)

(** [hasattr(v, 'fixed_precision')]. *)
Definition hasattr_fixed_precision (v : pyval) : bool :=
  match v with
  | PTensorVar tv => bool_decide (is_Some (fixed_precision tv))
  | _ => false
  end.

(** [v.precision]. *)
Definition getattr_precision (v : pyval) : result Z :=
  match v with
  | PTensorVar tv =>
      match precision tv with
      | Some p => Ok p
      | None => Raise (no_attribute "precision")
      end
  | _ => Raise (no_attribute "precision")
  end.

(** The storage a kernel method works on; only tensors and variables have
    one. *)
Definition storage_of (v : pyval) : result T :=
  match v with
  | PTensorVar tv => Ok (storage tv)
  | _ => Raise (TypeError "not a tensor")
  end.

Definition mixed_or_nonfixed (self other : pyval) : exn :=
  if (hasattr_fixed_precision self && negb (hasattr_fixed_precision other))
     || (negb (hasattr_fixed_precision self) && hasattr_fixed_precision other)
  then AttributeError mixed_msg
  else AttributeError nonfixed_msg.

Definition fixed_prec_mul (self : tensorvar) (other : pyval) (norm_left_prec : bool)
  : result tensorvar :=
  if hasattr_fixed_precision (PTensorVar self) && hasattr_fixed_precision other then
    (p1 <- getattr_precision (PTensorVar self);;
     p2 <- getattr_precision other;;
     if p1 + p2 >? 17 then Raise OverflowError
     else
       o <- storage_of other;;
       if norm_left_prec then
         Ok (set_fixed (fresh_obj LongTensor
               (old_div_num (old_mul (storage self) o) (pow10 p2))) p1)
       else
         Ok (set_fixed (fresh_obj LongTensor
               (old_div_num (old_mul (storage self) o) (pow10 p1))) p2))%res
  else Raise (mixed_or_nonfixed (PTensorVar self) other).

(** The first test reads [hasattr(self, ...) and hasattr(self, ...)]: it
    looks at [self] twice and never at [other]. *)
Definition fixed_prec_add (self : tensorvar) (other : pyval) : result tensorvar :=
  if hasattr_fixed_precision (PTensorVar self)
     && hasattr_fixed_precision (PTensorVar self) then
    (p1 <- getattr_precision (PTensorVar self);;
     p2 <- getattr_precision other;;
     o <- storage_of other;;
     if p1 >? p2 then
       Ok (set_fixed (fresh_obj LongTensor
             (old_add (storage self) (old_mul_num o (pow10 (p1 - p2))))) p1)
     else if p1 <? p2 then
       Ok (set_fixed (fresh_obj LongTensor
             (old_add (old_mul_num (storage self) (pow10 (p2 - p1))) o)) p2)
     else
       Ok (set_fixed (fresh_obj LongTensor (old_add (storage self) o)) p1))%res
  else Raise (mixed_or_nonfixed (PTensorVar self) other).

Definition fixed_prec_sub (self : tensorvar) (other : pyval) : result tensorvar :=
  if hasattr_fixed_precision (PTensorVar self)
     && hasattr_fixed_precision (PTensorVar self) then
    (p1 <- getattr_precision (PTensorVar self);;
     p2 <- getattr_precision other;;
     o <- storage_of other;;
     if p1 >? p2 then
       Ok (set_fixed (fresh_obj LongTensor
             (old_sub (storage self) (old_mul_num o (pow10 (p1 - p2))))) p1)
     else if p1 <? p2 then
       Ok (set_fixed (fresh_obj LongTensor
             (old_sub (old_mul_num (storage self) (pow10 (p2 - p1))) o)) p2)
     else
       Ok (set_fixed (fresh_obj LongTensor (old_sub (storage self) o)) p1))%res
  else Raise (mixed_or_nonfixed (PTensorVar self) other).

Definition fixed_prec_div (self : tensorvar) (other : pyval) : result tensorvar :=
  if hasattr_fixed_precision (PTensorVar self)
     && hasattr_fixed_precision (PTensorVar self) then
    (p1 <- getattr_precision (PTensorVar self);;
     p2 <- getattr_precision other;;
     o <- storage_of other;;
     if p1 <? p2 then
       Ok (set_fixed (fresh_obj LongTensor
             (old_div (old_mul_num (storage self) (pow10 (p2 - p1))) o)) 0)
     else if p1 =? p2 then
       Ok (set_fixed (fresh_obj LongTensor (old_div (storage self) o)) 0)
     else
       Ok (set_fixed (fresh_obj LongTensor
             (old_div (storage self) (old_mul_num o (pow10 (p1 - p2))))) 0))%res
  else Raise (mixed_or_nonfixed (PTensorVar self) other).

(** [tensor_type.fixed_prec_trudiv = fixed_prec_div]. *)
Definition fixed_prec_trudiv : tensorvar -> pyval -> result tensorvar :=
  fixed_prec_div.

(** ** Commands and the command compiler *)

(** The transport-safe form of a value: a tensor or variable is replaced by a
    reference (its id and type). *)
Inductive jval : Type :=
| JNone
| JBool (b : bool)
| JInt (z : Z)
| JStr (s : string)
| JRef (ref_id : option Z) (ref_type : torch_type)
| JSeq (xs : list jval)
| JDict (kvs : list (string * jval)).

Record command : Type := {
  has_self : bool;
  cmd_self : option jval;
  cmd_command : string;
  cmd_args : list jval;
  cmd_kwargs : list (string * jval)
}.

(** Modelled from the spec: [utils.PythonEncoder.encode] is not among the
    sources.  It walks the value recursively; any tensor or variable found is
    replaced by a serializable reference and collected; every other value
    passes through as a literal. *)
Fixpoint encode (v : pyval) : jval :=
  match v with
  | PNone => JNone
  | PBool b => JBool b
  | PInt z => JInt z
  | PStr s => JStr s
  | PTensorVar tv => JRef (obj_id tv) (tv_type tv)
  | PSeq xs => JSeq (map encode xs)
  | PDict kvs => JDict (map (fun kv => (fst kv, encode (snd kv))) kvs)
  end.

Fixpoint tensorvars_in (v : pyval) : list tensorvar :=
  match v with
  | PTensorVar tv => [tv]
  | PSeq xs => flat_map tensorvars_in xs
  | PDict kvs => flat_map (fun kv => tensorvars_in (snd kv)) kvs
  | _ => []
  end.

(** A [functools.partial]: [func.__name__], [args], [keywords]. *)
Record partial : Type := {
  func_name : string;
  p_args : list pyval;
  p_keywords : list (string * pyval)
}.

Definition _compile_command (partial_func : partial) (has_self : bool)
  : result (command * list tensorvar) :=
  let kw := p_keywords partial_func in
  if has_self then
    match p_args partial_func with
    | [] => Raise (IndexError "tuple index out of range")
    | self :: args =>
        Ok ({| has_self := true;
               cmd_self := Some (encode self);
               cmd_command := func_name partial_func;
               cmd_args := map encode args;
               cmd_kwargs := map (fun kv => (fst kv, encode (snd kv))) kw |},
            tensorvars_in self ++ flat_map tensorvars_in args
              ++ flat_map (fun kv => tensorvars_in (snd kv)) kw)
    end
  else
    Ok ({| has_self := false;
           cmd_self := None;
           cmd_command := func_name partial_func;
           cmd_args := map encode (p_args partial_func);
           cmd_kwargs := map (fun kv => (fst kv, encode (snd kv))) kw |},
        flat_map tensorvars_in (p_args partial_func)
          ++ flat_map (fun kv => tensorvars_in (snd kv)) kw).

(** ** The world: registry, transport, events *)

(** The keyword arguments of [register_object]. *)
Record registration : Type := {
  reg_id : option Z;
  reg_owners : option (list Z);
  reg_is_pointer : option bool;
  reg_temporary : bool
}.

(** What a worker answers to a command: [{'numeric': v}], or the four fields
    [registration, torch_type, var_data, var_grad]; with a registration the
    nested [var_data] and [var_grad] have the same four fields. *)
Inductive pointer_msg : Type :=
| PointerMsg (reg : registration) (torch_type : string)
    (var_data : option pointer_msg) (var_grad : option pointer_msg).

Inductive response : Type :=
| Numeric (v : pyval)
| Unregistered (torch_type : string) (var_data : pyval)
| Registered (m : pointer_msg).

Inductive responses : Type :=
| OneResponse (r : response)
| ResponseList (rs : list response).

(** What the program does that can be observed from outside, in order. *)
Inductive event : Type :=
| TorchCall (name : string)
| SendCommand (recipient : Z) (message : command)
| SendObj (recipient : Z) (sent_id : Z)
| RequestObj (recipient : Z) (requested_id : Z)
| TypesGuard (name : string)
| Construct (ty : torch_type)
| Register (registered_id : Z) (os : list Z) (pointer temporary : bool)
| SetGrad (parent_id : option Z).

(** Ownership metadata of a registry entry. *)
Record entry : Type := {
  e_owners : list Z;
  e_is_pointer : bool;
  e_temporary : bool
}.

(** [local_id] is [local_worker.id]; [objects] the registry of the local
    worker; [next_id] the source of new ids; [remote] what the other workers
    hold, by worker and object id. *)
Record world : Type := {
  local_id : Z;
  objects : gmap Z entry;
  next_id : Z;
  remote : gmap (Z * Z) tensorvar
}.

(** The collaborators the hook calls and that are not part of it: the torch
    function behind a partial ([_method.func]), the answer of a worker to a
    command ([local_worker.send_torch_command]) and the contents check of the
    guard ([guard.tensor_contents_guard]). *)
Class External : Type := {
  torch_func : string -> list pyval -> list (string * pyval) -> result pyval;
  send_torch_command : Z -> command -> result responses;
  tensor_contents_guard : list num -> result (list num)
}.

Context {E : External}.

(** Stateful code: it reads and changes the world, leaves events and may
    raise; a raised exception keeps the changes made so far. *)
Definition M (A : Type) : Type := world -> result A * world * list event.

Definition ret {A : Type} (a : A) : M A := fun w => (Ok a, w, []).
Definition raise {A : Type} (e : exn) : M A := fun w => (Raise e, w, []).
Definition bind {A B : Type} (m : M A) (k : A -> M B) : M B :=
  fun w =>
    match m w with
    | (Ok a, w1, evs1) =>
        match k a w1 with
        | (r, w2, evs2) => (r, w2, evs1 ++ evs2)
        end
    | (Raise e, w1, evs1) => (Raise e, w1, evs1)
    end.
Definition lift {A : Type} (r : result A) : M A := fun w => (r, w, []).
Definition emit (ev : event) : M unit := fun w => (Ok tt, w, [ev]).
Definition get_world : M world := fun w => (Ok w, w, []).
Definition put_world (w : world) : M unit := fun _ => (Ok tt, w, []).

Declare Scope hook_scope.
Delimit Scope hook_scope with hook.
Notation "x <- c ;; k" := (bind c (fun x => k))
  (at level 100, c at next level, right associativity) : hook_scope.
Notation "c ;;; k" := (bind c (fun _ => k))
  (at level 100, right associativity) : hook_scope.

Local Open Scope hook_scope.

Fixpoint mapM {A B : Type} (f : A -> M B) (l : list A) : M (list B) :=
  match l with
  | [] => ret []
  | x :: xs => y <- f x ;; ys <- mapM f xs ;; ret (y :: ys)
  end.

(** ** Object registry *)

Definition kw (i : option Z) (os : option (list Z)) (p : option bool) (tmp : bool)
  : registration :=
  {| reg_id := i; reg_owners := os; reg_is_pointer := p; reg_temporary := tmp |}.

(** Modelled from the spec: [local_worker.register_object] is not among the
    sources.  [register(obj, owners=[local], id=None, is_pointer=False,
    temporary=False)] assigns an id if none is given (here the next of a
    monotonic source, which stays above every registered id), stores the
    ownership metadata and returns the same object, now tracked. *)
Definition register_object (obj : tensorvar) (reg : registration) : M tensorvar :=
  fun w =>
    let i := match reg_id reg with Some i => i | None => next_id w end in
    let os := match reg_owners reg with Some os => os | None => [local_id w] end in
    let p := match reg_is_pointer reg with Some p => p | None => false end in
    (Ok (set_registration obj i os p),
     {| local_id := local_id w;
        objects := <[i := {| e_owners := os; e_is_pointer := p;
                             e_temporary := reg_temporary reg |}]> (objects w);
        next_id := Z.max (next_id w) (i + 1);
        remote := remote w |},
     [Register i os p (reg_temporary reg)]).

(** ** Construction ([_hook___new__]) *)

Inductive ctor_arg : Type :=
| FromZero
| FromList (xs : list num)
| FromObj (d : tensorvar).

(** [x.type(new_type)]: the object itself when it has that type already. *)
Definition cast (x : tensorvar) (new_type : torch_type) : T :=
  if decide (tv_type x = new_type) then storage x
  else convert (tv_type x) new_type (storage x).

(** The constructor of the kernel, [cls.old___new__(cls, *args, **kwargs)]:
    a tensor from [0], from a list or from another tensor; a variable around
    its data. *)
Definition old___new__ (cls : torch_type) (arg : ctor_arg) (rg vol : bool)
  : tensorvar :=
  match arg with
  | FromZero => fresh_obj cls (empty cls)
  | FromList xs => fresh_obj cls (of_list cls xs)
  | FromObj d =>
      if is_var_type cls
      then TensorVar cls None None None None None (storage d) (Some d) None false rg vol
      else fresh_obj cls (cast d cls)
  end.

(** [cls.fixed_precision = False]: from now on the lookup on the object
    finds the class attribute. *)
Definition set_class_fixed_precision (obj : tensorvar) : tensorvar :=
  TensorVar (tv_type obj) (obj_id obj) (owners obj) (is_pointer obj)
    (Some false) (precision obj) (storage obj) (old_data obj) (old_grad obj)
    (data_registered obj) (requires_grad obj) (volatile obj).

Definition new___new__ (cls : torch_type) (arg : ctor_arg) (rg vol : bool)
  : M tensorvar :=
  emit (Construct cls) ;;;
  result <- register_object (old___new__ cls arg rg vol) (kw None None (Some false) false) ;;
  ret (set_class_fixed_precision result).

(** ** Type guard *)

Definition allow_list : list torch_type := tensor_types ++ var_types.

Definition known_type (name : string) : option torch_type :=
  List.find (fun ty => String.eqb (type_name ty) name) allow_list.

(** Modelled from the spec: [guard.types_guard] is not among the sources.
    [validate(name)] gives the type of that name in a fixed allow-list of the
    tensor and variable types and fails on any other name; the failure is the
    [KeyError] that [_assemble_result_pointer] catches. *)
Definition types_guard (name : string) : M torch_type :=
  emit (TypesGuard name) ;;;
  match known_type name with
  | Some ty => ret ty
  | None => raise (KeyError name)
  end.

(** [try: ... except KeyError: raise TypeError(...)]. *)
Definition except_KeyError {A : Type} (m : M A) (e : exn) : M A :=
  fun w =>
    match m w with
    | (Raise (KeyError _), w1, evs) => (Raise e, w1, evs)
    | r => r
    end.

(** ** Calls: fixed precision, local, remote *)

Definition assoc (k : string) (kvs : list (string * pyval)) : option pyval :=
  snd <$> List.find (fun kv => String.eqb (fst kv) k) kvs.

(** Binding of [*args, **kwargs] to the parameters of a method (after
    [self]), each with its default if it has one. *)
Fixpoint bind_from (params : list (string * option pyval)) (args : list pyval)
  (kwargs : list (string * pyval)) : result (list pyval) :=
  match params, args with
  | [], [] => Ok []
  | [], _ :: _ => Raise (TypeError "too many positional arguments")
  | (n, _) :: ps, a :: rest =>
      match assoc n kwargs with
      | Some _ => Raise (TypeError "multiple values for argument")
      | None => (vs <- bind_from ps rest kwargs ;; Ok (a :: vs))%res
      end
  | (n, d) :: ps, [] =>
      match assoc n kwargs, d with
      | Some v, _ | None, Some v => (vs <- bind_from ps [] kwargs ;; Ok (v :: vs))%res
      | None, None => Raise (TypeError "missing required positional argument")
      end
  end.

Definition bind_params (params : list (string * option pyval)) (args : list pyval)
  (kwargs : list (string * pyval)) : result (list pyval) :=
  if forallb (fun kv => bool_decide (fst kv ∈ map fst params)) kwargs
  then bind_from params args kwargs
  else Raise (TypeError "unexpected keyword argument").

(** [self.<name>( *args, **kwargs)] for a method of one parameter [other];
    the fixed-precision methods are set on the tensor types only. *)
Definition call_binary (method_name : string)
  (f : tensorvar -> pyval -> result tensorvar)
  (self : tensorvar) (args : list pyval) (kwargs : list (string * pyval))
  : result pyval :=
  if is_tensor_type (tv_type self) then
    (vs <- bind_params [("other", None)] args kwargs ;;
     match vs with
     | [other] => out <- f self other ;; Ok (PTensorVar out)
     | _ => Raise (TypeError "arguments")
     end)%res
  else Raise (no_attribute method_name).

Definition call_fixed_prec_mul (self : tensorvar) (args : list pyval)
  (kwargs : list (string * pyval)) : result pyval :=
  if is_tensor_type (tv_type self) then
    (vs <- bind_params [("other", None); ("norm_left_prec", Some (PBool true))]
             args kwargs ;;
     match vs with
     | [other; norm_left_prec] =>
         out <- fixed_prec_mul self other (truthy norm_left_prec) ;;
         Ok (PTensorVar out)
     | _ => Raise (TypeError "arguments")
     end)%res
  else Raise (no_attribute "fixed_prec_mul").

(** [_method.func( *args, **kwargs)]: the torch function itself. *)
Definition call_func (_method : partial) (args : list pyval)
  (kwargs : list (string * pyval)) : M pyval :=
  emit (TorchCall (func_name _method)) ;;;
  lift (torch_func (func_name _method) args kwargs).

Definition _execute_fixed_precision_call (self : tensorvar) (_method : partial)
  (args : list pyval) (kwargs : list (string * pyval)) : M pyval :=
  let name := func_name _method in
  if String.eqb name "mul" then lift (call_fixed_prec_mul self args kwargs)
  else if String.eqb name "div"
  then lift (call_binary "fixed_prec_div" fixed_prec_div self args kwargs)
  else if String.eqb name "add"
  then lift (call_binary "fixed_prec_add" fixed_prec_add self args kwargs)
  else if String.eqb name "sub"
  then lift (call_binary "fixed_prec_sub" fixed_prec_sub self args kwargs)
  else if String.eqb name "trudiv"
  then lift (call_binary "fixed_prec_trudiv" fixed_prec_trudiv self args kwargs)
  else call_func _method (PTensorVar self :: args) kwargs.

(** Nothing in the hook sets an attribute [owner] (registration sets
    [owners]), so [not hasattr(result, 'owner')] holds of every result. *)
Definition _execute_local_call (self : pyval) (_method : partial)
  (args : list pyval) (kwargs : list (string * pyval)) (function_not_method : bool)
  : M pyval :=
  result <- (if function_not_method then call_func _method args kwargs
             else call_func _method (self :: args) kwargs) ;;
  match result with
  | PTensorVar r =>
      if bool_decide (tv_type r ∈ tensorvar_types)
      then r' <- register_object r (kw None None (Some false) false) ;;
           ret (PTensorVar r')
      else ret result
  | _ => ret result
  end.

Fixpoint _assemble_result_pointer (m : pointer_msg) : M tensorvar :=
  match m with
  | PointerMsg registration torch_type var_data var_grad =>
      cls <- except_KeyError (types_guard torch_type)
               (TypeError (non_torch_msg torch_type)) ;;
      data <- match var_data with
              | Some d => p <- _assemble_result_pointer d ;; ret (FromObj p)
              | None =>
                  if is_var_type cls
                  then t <- new___new__ FloatTensor FromZero false false ;;
                       ret (FromObj t)
                  else ret FromZero
              end ;;
      result <- new___new__ cls data false false ;;
      register_object result registration
  end.

(** [tensorvar.is_pointer]. *)
Definition read_is_pointer (tv : tensorvar) : M bool :=
  match is_pointer tv with
  | Some b => ret b
  | None => raise (no_attribute "is_pointer")
  end.

(** [self.owners]: an attribute of a tensor, the property of
    [_hook_var_owners] on a variable, which registers a variable that has no
    owners yet.  The result is the owners and the object after the access. *)
Definition getattr_owners (self : tensorvar) : M (list Z * tensorvar) :=
  match owners self with
  | Some os => ret (os, self)
  | None =>
      if is_var_type (tv_type self)
      then self1 <- register_object self (kw None None None false) ;;
           ret (default [] (owners self1), self1)
      else raise (no_attribute "owners")
  end.

Definition read_owners (tv : tensorvar) : M (list Z) :=
  r <- getattr_owners tv ;; ret (fst r).

Definition handle_response (response : response) : M pyval :=
  match response with
  | Numeric var_data => ret var_data
  | Unregistered _ var_data => ret var_data
  | Registered m => pointer <- _assemble_result_pointer m ;; ret (PTensorVar pointer)
  end.

Definition _execute_remote_call (_method : partial) (has_self : bool)
  : M (pyval * bool * bool) :=
  compiled <- lift (_compile_command _method has_self) ;;
  let command := fst compiled in
  let tensorvars := snd compiled in
  flags <- mapM read_is_pointer tensorvars ;;
  let has_remote := existsb (fun b => b) flags in
  all_owners <- mapM read_owners tensorvars ;;
  let owners := remove_dups (concat all_owners) in
  let multiple_owners := bool_decide (1 < length owners)%nat in
  if has_remote && negb multiple_owners then
    match owners with
    | worker :: _ =>
        emit (SendCommand worker command) ;;;
        responses <- lift (send_torch_command worker command) ;;
        let responses :=
          match responses with
          | OneResponse r => [r]
          | ResponseList rs => rs
          end in
        pointers <- mapM handle_response responses ;;
        match pointers with
        | [] => raise (IndexError "list index out of range")
        | [pointer] => ret (pointer, has_remote, multiple_owners)
        | _ => ret (PSeq pointers, has_remote, multiple_owners)
        end
    | [] => ret (PNone, has_remote, multiple_owners)
    end
  else if has_remote && multiple_owners then
    raise (NotImplementedError mpc_msg)
  else ret (PNone, has_remote, multiple_owners).

(** ** The routers *)

(** [method(self, *args, **kwargs)] of [utils.pass_method_args] and
    [func( *args, **kwargs)] of [utils.pass_func_args]: the partial of the
    call. *)
Definition pass_args (name : string) (args : list pyval)
  (kwargs : list (string * pyval)) : partial :=
  {| func_name := name; p_args := args; p_keywords := kwargs |}.

Definition method_router (method : string) (self : tensorvar) (args : list pyval)
  (kwargs : list (string * pyval)) : M pyval :=
  let _method := pass_args method (PTensorVar self :: args) kwargs in
  match is_pointer self with
  | Some true =>
      res <- _execute_remote_call _method true ;;
      ret (fst (fst res))
  | _ =>
      match fixed_precision self with
      | Some true => _execute_fixed_precision_call self _method args kwargs
      | _ => _execute_local_call (PTensorVar self) _method args kwargs false
      end
  end.

Definition function_router (func : string) (args : list pyval)
  (kwargs : list (string * pyval)) : M pyval :=
  let part := pass_args func args kwargs in
  _res <- _execute_remote_call part false ;;
  let pointer := fst (fst _res) in
  let has_remote := snd (fst _res) in
  let multiple_owners := snd _res in
  if has_remote && negb multiple_owners then ret pointer
  else _execute_local_call PNone part args kwargs true.

(** ** The [data] and [grad] properties of a variable *)

Definition read_id (tv : tensorvar) : M Z :=
  match obj_id tv with
  | Some i => ret i
  | None => raise (no_attribute "id")
  end.

(** The getter of [_hook_new_data]: on the first access the data tensor is
    registered with the owners and pointer flag of the variable
    ([hasattr(self, 'owners')] runs the [owners] property, which registers a
    variable that has none).  The result is [self.data] and [self] after the
    access. *)
Definition new_data (self : tensorvar) : M (tensorvar * tensorvar) :=
  match old_data self with
  | None => raise (no_attribute "data")
  | Some d =>
      if data_registered self then ret (d, self)
      else
        self1 <- match owners self with
                 | Some _ => ret self
                 | None => register_object self (kw None None None false)
                 end ;;
        p <- read_is_pointer self1 ;;
        d' <- register_object d (kw (obj_id d) (owners self1) (Some p) false) ;;
        ret (d', set_old_data self1 d' true)
  end.

(** The getter of [_hook_new_grad] returns [self.old_grad].  On its first
    access it also caches the grad ([grad_backup], [parent]) and reads the
    [owners] of the grad; the caches are read nowhere in the hook and are
    left out, and so is that read of [owners]. *)
Definition new_grad (self : tensorvar) : option tensorvar := old_grad self.

(** ** Serialization *)

(** A wire message, after [json.loads].  A nested message travels as a
    string inside its parent; [requires_grad] and [volatile] are the keys of
    a variable message only. *)
Inductive msg : Type :=
| Msg (torch_type : string) (data : msg_data) (grad : msg_grad)
    (id : Z) (os : list Z) (pointer : bool) (var_flags : option (bool * bool))
with msg_data : Type :=
| DataAbsent
| DataNumbers (xs : list num)
| DataNested (m : msg)
with msg_grad : Type :=
| GradAbsent
| GradNull
| GradNested (m : msg).

Definition msg_torch_type (m : msg) : string :=
  match m with Msg torch_type _ _ _ _ _ _ => torch_type end.
Definition msg_id (m : msg) : Z :=
  match m with Msg _ _ _ id _ _ _ => id end.
Definition msg_owners (m : msg) : list Z :=
  match m with Msg _ _ _ _ os _ _ => os end.
Definition msg_is_pointer (m : msg) : bool :=
  match m with Msg _ _ _ _ _ pointer _ => pointer end.
Definition msg_requires_grad (m : msg) : M bool :=
  match m with
  | Msg _ _ _ _ _ _ (Some (rg, _)) => ret rg
  | _ => raise (KeyError "requires_grad")
  end.
Definition msg_volatile (m : msg) : M bool :=
  match m with
  | Msg _ _ _ _ _ _ (Some (_, vol)) => ret vol
  | _ => raise (KeyError "volatile")
  end.

(** [ser] of [_hook_tensor__serde]. *)
Definition tensor_ser (self : tensorvar) (include_data : bool) : M msg :=
  i <- read_id self ;;
  os <- match owners self with
        | Some [] => raise (IndexError "list index out of range")
        | Some os => ret os
        | None => raise (no_attribute "owners")
        end ;;
  ret (Msg (type_name (tv_type self))
         (if include_data then DataNumbers (tolist (storage self)) else DataAbsent)
         GradAbsent i os (negb include_data) None).

(** [ser] of [_hook_var_serde]; the data of a variable is a tensor. *)
Fixpoint ser (self : tensorvar) (include_data : bool) : M msg :=
  if is_var_type (tv_type self) then
    dv <- new_data self ;;
    let self1 := snd dv in
    data <- tensor_ser (fst dv) include_data ;;
    grad <- match old_grad self with
            | Some g => m <- ser g include_data ;; ret (GradNested m)
            | None => ret GradNull
            end ;;
    i <- read_id self1 ;;
    os <- match owners self1 with
          | Some [] => raise (IndexError "list index out of range")
          | Some os => ret os
          | None => raise (no_attribute "owners")
          end ;;
    ret (Msg (type_name (tv_type self)) (DataNested data) grad i os
           (negb include_data) (Some (requires_grad self, volatile self)))
  else tensor_ser self include_data.

(** Modelled from the spec: [local_worker.handle_register] is not among the
    sources.  It is the registration at deserialization time: the object is
    registered under the id, owners and pointer flag of its message. *)
Definition handle_register (obj : tensorvar) (obj_msg : msg) (temporary : bool)
  : M tensorvar :=
  register_object obj
    (kw (Some (msg_id obj_msg)) (Some (msg_owners obj_msg))
        (Some (msg_is_pointer obj_msg)) temporary).

(** [deser] of [_hook_tensor__serde]. *)
Definition tensor_deser (self : torch_type) (obj_msg : msg) : M tensorvar :=
  match obj_msg with
  | Msg _ (DataNumbers xs) _ _ _ _ _ =>
      data <- lift (tensor_contents_guard xs) ;;
      new___new__ self (FromList data) false false
  | Msg _ (DataNested _) _ _ _ _ _ =>
      raise (TypeError "new() received an invalid combination of arguments")
  | Msg _ DataAbsent _ _ _ _ _ =>
      new___new__ self (FromList []) false false
  end.

(** [var.grad = grad], through the setter of the [grad] property. *)
Definition setattr_grad (var : tensorvar) (grad : option tensorvar) : M tensorvar :=
  emit (SetGrad (obj_id var)) ;;;
  ret (set_old_grad var grad).

(** [deser] of [_hook_var_serde] with [_build_var]; [tensor_type.deser] is
    the [deser] of the class the guard returned.  A local name that no branch
    has bound ([data], [grad]) is [None] here and raises where it is read. *)
Fixpoint deser (self : torch_type) (obj_msg : msg) {struct obj_msg} : M tensorvar :=
  if is_var_type self then
    match obj_msg with
    | Msg _ data_field grad_field _ _ _ _ =>
        data <- match data_field with
                | DataNested data_msg =>
                    tensor_type <- types_guard (msg_torch_type data_msg) ;;
                    data_obj <- deser tensor_type data_msg ;;
                    d <- handle_register data_obj data_msg false ;;
                    ret (Some d)
                | DataNumbers _ => raise (TypeError "the JSON object must be str")
                | DataAbsent => ret None
                end ;;
        grad <- match grad_field with
                | GradNested grad_msg =>
                    var_type <- types_guard (msg_torch_type grad_msg) ;;
                    grad_obj <- _build_var grad_msg var_type ;;
                    g <- handle_register grad_obj grad_msg true ;;
                    ret (Some (Some g))
                | GradNull => ret (Some None)
                | GradAbsent => ret None
                end ;;
        var <- match data with
               | None => raise (UnboundLocalError "data")
               | Some d =>
                   if decide (self = ParameterT) then
                     rg <- msg_requires_grad obj_msg ;;
                     new___new__ self (FromObj d) rg false
                   else
                     vol <- msg_volatile obj_msg ;;
                     rg <- msg_requires_grad obj_msg ;;
                     new___new__ self (FromObj d) rg vol
               end ;;
        match grad with
        | None => raise (UnboundLocalError "grad")
        | Some g => setattr_grad var g
        end
    end
  else tensor_deser self obj_msg
with _build_var (obj_msg : msg) (torch_type : torch_type) {struct obj_msg}
  : M tensorvar :=
  match obj_msg with
  | Msg _ data_field grad_field _ _ _ _ =>
      data <- match data_field with
              | DataNested data_msg =>
                  tensor_type <- types_guard (msg_torch_type data_msg) ;;
                  data_obj <- deser tensor_type data_msg ;;
                  d <- handle_register data_obj data_msg true ;;
                  ret (Some d)
              | DataNumbers _ => raise (TypeError "the JSON object must be str")
              | DataAbsent => ret None
              end ;;
      grad <- match grad_field with
              | GradNested grad_msg =>
                  var_type <- types_guard (msg_torch_type grad_msg) ;;
                  grad_obj <- _build_var grad_msg var_type ;;
                  g <- handle_register grad_obj grad_msg true ;;
                  ret (Some (Some g))
              | GradNull => ret (Some None)
              | GradAbsent => ret None
              end ;;
      var <- match data with
             | None => raise (UnboundLocalError "data")
             | Some d =>
                 vol <- msg_volatile obj_msg ;;
                 rg <- msg_requires_grad obj_msg ;;
                 new___new__ torch_type (FromObj d) rg vol
             end ;;
      match grad with
      | None => raise (UnboundLocalError "grad")
      | Some g => setattr_grad var g
      end
  end.

(** ** Moving objects: [send_] and [get_] *)

(** Modelled from the spec: [local_worker.send_obj] is not among the
    sources.  Transport Bridge, [send_object(worker_id, wire_message,
    delete_local)]: the object as it is at the time of the call is
    transmitted to the worker, which holds it under its id; with
    [delete_local] the local registry entry is dropped. *)
Definition send_obj (obj : tensorvar) (worker : Z) (send_pointer delete_local : bool)
  : M unit :=
  i <- read_id obj ;;
  fun w =>
    (Ok tt,
     {| local_id := local_id w;
        objects := if delete_local then delete i (objects w) else objects w;
        next_id := next_id w;
        remote := <[(worker, i) := obj]> (remote w) |},
     [SendObj worker i]).

(** Modelled from the spec: [local_worker.request_obj] is not among the
    sources.  Transport Bridge, [request_object(id, worker_id)]: the worker
    returns the object it holds under that id (the cleanup token is not
    used by the hook); a worker that holds none is a transport failure. *)
Definition request_obj (i : Z) (recipient : Z) : M tensorvar :=
  emit (RequestObj recipient i) ;;;
  w <- get_world ;;
  match remote w !! (recipient, i) with
  | Some x => ret x
  | None => raise (TransportError "object not found")
  end.

(** One worker or a sequence of workers. *)
Inductive workers_arg : Type :=
| Worker (w : Z)
| WorkerList (ws : list Z).

(** Modelled from the spec: [local_worker._check_workers] is not among the
    sources; it makes a singleton list of a single worker. *)
Definition _check_workers (workers : workers_arg) : list Z :=
  match workers with
  | Worker w => [w]
  | WorkerList ws => ws
  end.

Fixpoint _var_to_pointer (var : tensorvar) : M tensorvar :=
  g <- match old_grad var with
       | Some g => g' <- _var_to_pointer g ;; ret (Some g')
       | None => ret None
       end ;;
  dv <- new_data (set_old_grad var g) ;;
  let d := fst dv in
  let var1 := snd dv in
  z <- new___new__ (tv_type d) FromZero false false ;;
  ret (set_is_pointer
         (set_old_data var1 (old_set_ d (storage z)) (data_registered var1)) true).

Definition send_ (self : tensorvar) (workers : workers_arg) (send_pointer : bool)
  : M tensorvar :=
  let workers := _check_workers workers in
  mapM (fun worker => send_obj self worker send_pointer (negb send_pointer)) workers ;;;
  if negb send_pointer then
    zeroed <- (if is_var_type (tv_type self) then ret self
               else z <- new___new__ (tv_type self) FromZero false false ;;
                    ret (old_set_ self (storage z))) ;;
    i <- read_id self ;;
    self1 <- register_object zeroed (kw (Some i) (Some workers) (Some true) false) ;;
    if is_var_type (tv_type self) then _var_to_pointer self1 else ret self1
  else ret self.

(** [x.type(new_type)]: for a variable the type is that of its data. *)
Definition type_to (x : tensorvar) (new_type : torch_type) : T :=
  match old_data x with
  | Some xd => if is_var_type (tv_type x) then cast xd new_type else cast x new_type
  | None => cast x new_type
  end.

Definition get_ (self : tensorvar) : M tensorvar :=
  oself <- getattr_owners self ;;
  let os := fst oself in
  let self := snd oself in
  if negb (bool_decide (length os = 1%nat))
  then raise (NotImplementedError single_owner_msg)
  else
    w <- get_world ;;
    if bool_decide (local_id w ∈ os) then ret self
    else
      i <- read_id self ;;
      x <- request_obj i (hd 0 os) ;;
      xi <- read_id x ;;
      x <- register_object x (kw (Some xi) None None false) ;;
      _os <- (if negb (is_var_type (tv_type self))
              then ret (old_set_ self (type_to x (tv_type self)))
              else
                dv <- new_data self ;;
                let self1 := old_set_ (snd dv) (type_to x (tv_type (fst dv))) in
                xdv <- new_data x ;;
                let self2 := set_old_data self1 (fst xdv) (data_registered self1) in
                match new_grad (snd xdv) with
                | Some g => setattr_grad self2 (Some g)
                | None => ret self2
                end) ;;
      i' <- read_id _os ;;
      register_object _os (kw (Some i') (Some [local_id w]) None false).

(** ** What the claims speak about *)

(** A tracked value: registered, with a non-empty owner set. *)
Definition tracked (tv : tensorvar) : Prop :=
  is_Some (obj_id tv) /\ is_Some (is_pointer tv)
  /\ exists o os, owners tv = Some (o :: os).

(** [has_remote] and the two owner sets: the one the hook computes, over all
    operands, and the one over the pointer operands only. *)
Definition has_remote (tensorvars : list tensorvar) : bool :=
  existsb (fun tv => bool_decide (is_pointer tv = Some true)) tensorvars.

Definition owners_of (tensorvars : list tensorvar) : list Z :=
  remove_dups (concat (map (fun tv => default [] (owners tv)) tensorvars)).

Definition pointer_owners_of (tensorvars : list tensorvar) : list Z :=
  owners_of (filter (fun tv => is_pointer tv = Some true) tensorvars).

(** The operands the command compiler finds in a call. *)
Definition operands (_method : partial) : list tensorvar :=
  flat_map tensorvars_in (p_args _method)
    ++ flat_map (fun kv => tensorvars_in (snd kv)) (p_keywords _method).

Definition is_send_command (ev : event) : bool :=
  match ev with SendCommand _ _ => true | _ => false end.
Definition is_torch_call (ev : event) : bool :=
  match ev with TorchCall _ => true | _ => false end.
Definition is_construct (ev : event) : bool :=
  match ev with Construct _ => true | _ => false end.

(** The call was dispatched to a worker; the torch function ran locally. *)
Definition dispatched (evs : list event) : bool := existsb is_send_command evs.
Definition executed_locally (evs : list event) : bool := existsb is_torch_call evs.

(** A fixed-precision operand of precision [p]. *)
Definition fixed (tv : tensorvar) (p : Z) : Prop :=
  fixed_precision tv = Some true /\ precision tv = Some p.

(** The words of the specification for [add], [sub] and [div]: the operand
    of lower precision is rescaled up, by [10^|to - from|], to the common
    precision; an operand that has it already is left as it is. *)
Definition rescale_up (s : T) (from to : Z) : T :=
  if from <? to then old_mul_num s (PyInt (10 ^ Z.abs (to - from))) else s.

(** The contents of a tracked value: the storage of a tensor, the storage of
    the data of a variable. *)
Definition contents (v : tensorvar) : T :=
  match old_data v with
  | Some d => if is_var_type (tv_type v) then storage d else storage v
  | None => storage v
  end.

End Model.

(** ** A kernel and collaborators to run the model on

    Storages are flat lists of 64-bit integers, combined elementwise with
    wrap-around; the collaborators answer with fixed values. *)

Definition wrap64 (z : Z) : Z := (z + 2 ^ 63) mod 2 ^ 64 - 2 ^ 63.

Definition scale (n : number) (z : Z) : Z :=
  match n with
  | PyInt k => wrap64 (z * k)
  | PyFloatPow10 p => Z.quot z (10 ^ (- p))
  end.

Definition unscale (n : number) (z : Z) : Z :=
  match n with
  | PyInt k => Z.quot z k
  | PyFloatPow10 p => wrap64 (z * 10 ^ (- p))
  end.

Definition ListKernel : Kernel :=
  {| T := list Z;
     num := Z;
     old_mul := zip_with (fun a b => wrap64 (a * b));
     old_add := zip_with (fun a b => wrap64 (a + b));
     old_sub := zip_with (fun a b => wrap64 (a - b));
     old_div := zip_with Z.quot;
     old_mul_num := fun s n => map (scale n) s;
     old_div_num := fun s n => map (unscale n) s;
     empty := fun _ => [];
     of_list := fun _ xs => xs;
     tolist := fun s => s;
     convert := fun _ _ s => s |}.

Definition QuietWorker : @External ListKernel :=
  {| torch_func := fun _ _ _ => Ok PNone;
     send_torch_command := fun _ _ => Ok (OneResponse (Numeric (PInt 0)));
     tensor_contents_guard := fun xs => Ok xs |}.

(** ** Sample objects *)

Definition w0 : @world ListKernel :=
  {| local_id := 0; objects := ∅; next_id := 100; remote := ∅ |}.

(** A tensor held by the local worker (id 0) and a pointer to a tensor held
    by another worker. *)
Definition local_tensor (i : Z) (s : list Z) : @tensorvar ListKernel :=
  set_class_fixed_precision (set_registration (fresh_obj (K := ListKernel) FloatTensor s) i [0] false).

Definition pointer_at (i worker : Z) : @tensorvar ListKernel :=
  set_class_fixed_precision (set_registration (fresh_obj (K := ListKernel) FloatTensor []) i [worker] true).

Definition fixed_tensor (s : list Z) (p : Z) : @tensorvar ListKernel :=
  set_fixed (fresh_obj (K := ListKernel) LongTensor s) p.

(** The wire message of a float tensor held by worker 0, and a variable
    message whose data is such a tensor and whose grad names a type that is
    not a torch type. *)
Definition tensor_message (i : Z) (xs : list Z) : @msg ListKernel :=
  Msg "torch.FloatTensor" (DataNumbers (K := ListKernel) xs) GradAbsent i [0] false None.

Definition forged_grad_message : @msg ListKernel :=
  Msg "torch.autograd.variable.Variable"
    (DataNested (tensor_message 5 [1; 2]))
    (GradNested (Msg "os.system" DataAbsent GradNull 6 [0] false (Some (false, false))))
    4 [0] false (Some (false, false)).

(** A variable held by the local worker (id 7), with its data (id 8) and a
    grad (id 9) that has data (id 10) and no grad of its own. *)
Definition variable_of (i : Z) (d : @tensorvar ListKernel)
  (g : option (@tensorvar ListKernel)) : @tensorvar ListKernel :=
  TensorVar VariableT (Some i) (Some [0]) (Some false) (Some false) None
    (storage d) (Some d) g true false false.

Definition sample_variable : @tensorvar ListKernel :=
  variable_of 7 (local_tensor 8 [1; 2; 3])
    (Some (variable_of 9 (local_tensor 10 [0; 0; 0]) None)).

(** ** The type guard in the events *)

(** The guard was asked about a name that is not in the allow-list. *)
Definition rejected (ev : event) : bool :=
  match ev with
  | TypesGuard name =>
      match known_type name with
      | Some _ => false
      | None => true
      end
  | _ => false
  end.

(** Either the guard rejected nothing, or its rejection is the last thing
    that happened and the call raised the untrusted-type error of that
    name. *)
Definition rejection_is_final {A : Type} (r : result A) (evs : list event) : Prop :=
  Forall (fun ev => rejected ev = false) evs
  \/ exists pre name e,
       evs = pre ++ [TypesGuard name]
       /\ Forall (fun ev => rejected ev = false) pre
       /\ known_type name = None
       /\ r = Raise e /\ UntrustedTypeError name e.

(** The type names [_assemble_result_pointer] meets, outermost first. *)
Fixpoint chain_names (m : pointer_msg) : list string :=
  match m with
  | PointerMsg _ torch_type var_data _ =>
      torch_type :: match var_data with
                    | Some d => chain_names d
                    | None => []
                    end
  end.

(** The names up to and including the first one the guard does not know,
    and that name. *)
Fixpoint checked_names (names : list string) : list string * option string :=
  match names with
  | [] => ([], None)
  | n :: rest =>
      match known_type n with
      | None => ([n], Some n)
      | Some _ => (n :: fst (checked_names rest), snd (checked_names rest))
      end
  end.

(** The names the guard was asked about, in order. *)
Definition asked (evs : list event) : list string :=
  flat_map (fun ev => match ev with TypesGuard name => [name] | _ => [] end) evs.

(** Every constructor call in the events is a call of a class in [ok] or of
    a class the guard gave, earlier in the events, for a name it was asked
    about. *)
Fixpoint guarded (ok : list torch_type) (evs : list event) : Prop :=
  match evs with
  | [] => True
  | TypesGuard name :: rest =>
      guarded (match known_type name with
               | Some ty => ty :: ok
               | None => ok
               end) rest
  | Construct ty :: rest => In ty ok /\ guarded ok rest
  | _ :: rest => guarded ok rest
  end.

(** ** Judgements on computations *)

Section Judgements.
Context {K : Kernel}.

(** Every event a computation leaves satisfies [P], from any world. *)
Definition emits {A : Type} (P : event -> Prop) (m : M A) : Prop :=
  forall w, Forall P (snd (m w)).

(** Events that neither reach a worker nor run a torch function. *)
Definition bookkeeping (ev : event) : Prop :=
  match ev with
  | TypesGuard _ | Construct _ | Register _ _ _ _ => True
  | _ => False
  end.

(** From any world, the constructor calls of the computation are
    [guarded]; [ok] holds the classes the caller passes in. *)
Definition constructs_guarded {A : Type} (ok : list torch_type) (m : M A) : Prop :=
  forall w, guarded ok (snd (m w)).

(** Whenever the computation returns, the guard was asked about exactly the
    names [names], in this order. *)
Definition asks {A : Type} (m : M A) (names : list string) : Prop :=
  forall w a w' evs, m w = (Ok a, w', evs) -> asked evs = names.

(** From the world [w] the computation returns [a] in the world [w'] and
    leaves the events [evs]. *)
Definition runs {A : Type} (m : M A) (w : world) (a : A) (w' : world)
  (evs : list event) : Prop :=
  m w = (Ok a, w', evs).

(** In every run a rejection by the guard is final. *)
Definition final_in {A : Type} (m : M A) : Prop :=
  forall w, rejection_is_final (fst (fst (m w))) (snd (m w)).

End Judgements.

(** ** The remote path of the routers *)

Section RemotePath.
Context {K : Kernel} {E : External}.

(** What a router returns from [_execute_remote_call]: the first component
    of its result ([pointer]), in the same world, after the same events. *)
Definition returned_pointer
  (run : result (pyval * bool * bool) * world * list event)
  : result pyval * world * list event :=
  match run with
  | (Ok res, w, evs) => (Ok (fst (fst res)), w, evs)
  | (Raise e, w, evs) => (Raise e, w, evs)
  end.

(** The run of a router took the remote path: it is what
    [_execute_remote_call] gives for the compiled call, and by the owners of
    the compiled operands either the command was sent to the one owner,
    first of all and followed by bookkeeping only, or the call was refused
    before anything was done. *)
Definition took_remote_path (_method : partial) (has_self : bool)
  (tensorvars : list tensorvar) (w : world)
  (run : result pyval * world * list event) : Prop :=
  exists command,
    _compile_command _method has_self = Ok (command, tensorvars)
    /\ run = returned_pointer (_execute_remote_call _method has_self w)
    /\ match owners_of tensorvars with
       | [] => run = (Ok PNone, w, [])
       | [worker] =>
           exists r w' evs,
             run = (r, w', SendCommand worker command :: evs)
             /\ Forall bookkeeping evs
       | _ => run = (Raise UnsupportedMultiPartyError, w, [])
       end.

(** The routers that reach [_execute_remote_call] with this call, a module
    function and a method on a pointer, give [run]. *)
Definition routers_give (_method : partial) (has_self : bool) (w : world)
  (run : result pyval * world * list event) : Prop :=
  (has_self = false ->
   function_router (func_name _method) (p_args _method) (p_keywords _method) w = run)
  /\ (forall self args,
        has_self = true -> p_args _method = PTensorVar self :: args ->
        is_pointer self = Some true ->
        method_router (func_name _method) self args (p_keywords _method) w = run).

End RemotePath.

(** ** Messages and worlds the theorems speak about *)

Section Shapes.
Context {K : Kernel}.

(** The message of a tensor with its data, and of a variable: the shapes
    [ser] produces. *)
Definition tensor_msg (name : string) (xs : list num) (i : Z) (os : list Z)
  (p : bool) : msg :=
  Msg name (DataNumbers xs) GradAbsent i os p None.

Definition var_msg (name : string) (data : msg) (grad : msg_grad) (i : Z)
  (os : list Z) (p rg vol : bool) : msg :=
  Msg name (DataNested data) grad i os p (Some (rg, vol)).

(** The type names of the nested messages that [deser] and [_build_var]
    of a variable build objects from, in the order they are read: the name
    of the data, the names inside the data when it is itself a variable,
    then the name of the grad and the names inside it.  A tensor class
    reads none. *)
Fixpoint names_var (m : msg) : list string :=
  match m with
  | Msg _ data_field grad_field _ _ _ _ =>
      match data_field with
      | DataNested data_msg =>
          msg_torch_type data_msg ::
          match known_type (msg_torch_type data_msg) with
          | Some ty => if is_var_type ty then names_var data_msg else []
          | None => []
          end
      | _ => []
      end ++
      match grad_field with
      | GradNested grad_msg => msg_torch_type grad_msg :: names_var grad_msg
      | _ => []
      end
  end.

Definition names_deser (self : torch_type) (m : msg) : list string :=
  if is_var_type self then names_var m else [].

(** The world after a registration. *)
Definition with_entry (w : world) (i : Z) (os : list Z) (p tmp : bool) : world :=
  {| local_id := local_id w;
     objects := <[i := {| e_owners := os; e_is_pointer := p; e_temporary := tmp |}]>
                  (objects w);
     next_id := Z.max (next_id w) (i + 1);
     remote := remote w |}.

(** The world after an object was sent to a worker and dropped locally. *)
Definition with_sent (w : world) (worker i : Z) (obj : tensorvar) : world :=
  {| local_id := local_id w;
     objects := delete i (objects w);
     next_id := next_id w;
     remote := <[(worker, i) := obj]> (remote w) |}.

(** A variable that [_var_to_pointer] can turn into a pointer: it and every
    grad below it has a data tensor, and where this data is not registered
    yet the variable has no owners (the property registers it) or has its
    pointer flag. *)
Fixpoint var_ready (v : tensorvar) : Prop :=
  is_Some (old_data v)
  /\ (data_registered v = false -> is_Some (owners v) -> is_Some (is_pointer v))
  /\ match old_grad v with
     | Some g => var_ready g
     | None => True
     end.

(** A value held by the local worker that can be sent. *)
Definition locally_owned (v : tensorvar) (i : Z) (w : world) : Prop :=
  obj_id v = Some i /\ owners v = Some [local_id w] /\ is_pointer v = Some false
  /\ (is_var_type (tv_type v) = true -> var_ready v).

End Shapes.

(** * Hooks besides the routers *)

Section MoreHooks.
Context {K : Kernel}.

(** ** [_hook_tensor___repr__]

    What [new___repr__] returns: the representation of the kernel,
    [self.old__repr__()], or the line
    ["[{}.{} - Locations:{}]".format(module, name, self.owners)]. *)
Inductive repr : Type :=
| OldRepr
| Locations (class_path : string) (os : list Z).

(** The owners of the model are worker ids, so [hook_self.local_worker in
    self.owners] is the test on the id. *)
Definition new___repr__ (self : tensorvar) : M repr :=
  match owners self with
  | None => ret OldRepr
  | Some os =>
      bind get_world (fun w =>
        if bool_decide (local_id w ∈ os) then ret OldRepr
        else ret (Locations (type_name (tv_type self)) os))
  end.

(** ** [_hook_module]

    A module is its parameters, in the order of [model.parameters()]. *)
Definition module_is_missing_grad (parameters : list tensorvar) : bool :=
  existsb (fun p => match new_grad p with None => true | Some _ => false end)
    parameters.

(** [module_get_]: [p.get_()] on every parameter; the result is the
    parameters after the call. *)
Definition module_get_ (parameters : list tensorvar) : M (list tensorvar) :=
  mapM get_ parameters.

(** [module_send_]; [create_grad_objects] runs autograd ([p.sum().backward()])
    and is given from outside. *)
Definition module_send_ (create_grad_objects : list tensorvar -> M (list tensorvar))
  (parameters : list tensorvar) (dest : workers_arg) : M (list tensorvar) :=
  bind (if module_is_missing_grad parameters then create_grad_objects parameters
        else ret parameters)
    (fun parameters => mapM (fun p => send_ p dest false) parameters).

(** ** Vocabulary of the properties below *)

(** The names [_execute_fixed_precision_call] maps to a fixed-precision
    method. *)
Definition fixed_prec_names : list string := ["mul"; "div"; "add"; "sub"; "trudiv"].

(** A variable and every grad below it is a pointer whose data tensor is
    empty. *)
Fixpoint chain_pointer (v : tensorvar) : Prop :=
  is_pointer v = Some true
  /\ (exists d, old_data v = Some d /\ storage d = empty (tv_type d))
  /\ match old_grad v with
     | Some g => chain_pointer g
     | None => True
     end.

(** The number of grads below a variable. *)
Fixpoint grad_depth (v : tensorvar) : nat :=
  match old_grad v with
  | Some g => S (grad_depth g)
  | None => O
  end.

Definition is_send_obj (ev : event) : bool :=
  match ev with SendObj _ _ => true | _ => false end.

(** A response that carries a plain value, and the value. *)
Definition plain_response (r : response) : bool :=
  match r with
  | Numeric _ | Unregistered _ _ => true
  | Registered _ => false
  end.

Definition payload (r : response) : pyval :=
  match r with
  | Numeric v | Unregistered _ v => v
  | Registered _ => PNone
  end.

(** [pointers = tuple(pointers) if len(pointers) > 1 else pointers[0]]. *)
Definition pointers_result (pointers : list pyval) : result pyval :=
  match pointers with
  | [] => Raise (IndexError "list index out of range")
  | [pointer] => Ok pointer
  | _ => Ok (PSeq pointers)
  end.

End MoreHooks.

(** A worker that answers every command with [rs], over a torch whose
    functions return their first argument. *)
Definition AnsweringWorker (rs : @responses ListKernel) : @External ListKernel :=
  {| torch_func := fun _ args _ => Ok (hd PNone args);
     send_torch_command := fun _ _ => Ok rs;
     tensor_contents_guard := fun xs => Ok xs |}.
(** * Fixed-precision arithmetic *)

Section FixedPrecision.
Context {K : Kernel}.

Lemma fixed_hasattr (tv : tensorvar) (p : Z) :
  fixed tv p -> hasattr_fixed_precision (PTensorVar tv) = true.
Proof.
  intros [Hf _]. unfold hasattr_fixed_precision. rewrite Hf.
  apply bool_decide_eq_true. eauto.
Qed.

Lemma fixed_precision_attr (tv : tensorvar) (p : Z) :
  fixed tv p -> getattr_precision (PTensorVar tv) = Ok p.
Proof. intros [_ Hp]. unfold getattr_precision. now rewrite Hp. Qed.

Lemma fixed_set_fixed (out : tensorvar) (p : Z) : fixed (set_fixed out p) p.
Proof. split; reflexivity. Qed.

(** From here on the operands are unfolded once and the comparison of the
    precisions decides the branch. *)
Ltac codec self other H1 H2 :=
  rewrite (fixed_hasattr self _ H1), ?(fixed_hasattr other _ H2); cbn [andb];
  rewrite (fixed_precision_attr self _ H1), (fixed_precision_attr other _ H2);
  cbn [rbind storage_of].

(** C5: on two fixed-precision operands of precisions [p1] and [p2],
    [fixed_prec_mul] raises the overflow error exactly when [p1 + p2 > 17];
    otherwise it returns a result tagged fixed-precision whose precision is
    [p1], the left operand's, by default and [p2] when right-precision
    normalization is requested ([norm_left_prec] false). *)
Theorem fixed_prec_mul_overflow_iff (self other : tensorvar)
  (norm_left_prec : bool) (p1 p2 : Z) :
  fixed self p1 -> fixed other p2 ->
  (fixed_prec_mul self (PTensorVar other) norm_left_prec
     = Raise PrecisionOverflowError <-> p1 + p2 > 17)
  /\ (p1 + p2 <= 17 ->
      exists out,
        fixed_prec_mul self (PTensorVar other) norm_left_prec = Ok out
        /\ fixed out (if norm_left_prec then p1 else p2)
        /\ storage out
           = old_div_num (old_mul (storage self) (storage other))
               (pow10 (if norm_left_prec then p2 else p1))).
Proof.
  intros H1 H2. unfold fixed_prec_mul. codec self other H1 H2.
  destruct (Z.gtb_spec (p1 + p2) 17) as [Hgt | Hle].
  - split; [ split; [ lia | reflexivity ] | lia ].
  - split.
    + split; [ destruct norm_left_prec; discriminate | lia ].
    + intros _. destruct norm_left_prec; eexists;
        (split; [ reflexivity | split; [ apply fixed_set_fixed | reflexivity ] ]).
Qed.

Ltac decide_precisions p1 p2 :=
  rewrite ?Z.gtb_ltb;
  destruct (Z.lt_trichotomy p1 p2) as [Hlt | [Heq | Hgt]];
    [ rewrite (Z.max_r p1 p2) by lia
    | subst p2; rewrite Z.max_id
    | rewrite (Z.max_l p1 p2) by lia ];
    repeat match goal with
      | |- context [?a <? ?b] => destruct (Z.ltb_spec a b); try lia
      | |- context [?a =? ?b] => destruct (Z.eqb_spec a b); try lia
      | |- context [?a <=? ?b] => destruct (Z.leb_spec a b); try lia
      end;
    rewrite ?Z.abs_eq by lia;
    eexists;
    (split; [ reflexivity | split; [ apply fixed_set_fixed | reflexivity ] ]).

Lemma fixed_prec_add_result (self other : tensorvar) (p1 p2 : Z) :
  fixed self p1 -> fixed other p2 ->
  exists out, fixed_prec_add self (PTensorVar other) = Ok out
    /\ fixed out (Z.max p1 p2)
    /\ storage out
       = old_add (rescale_up (storage self) p1 (Z.max p1 p2))
           (rescale_up (storage other) p2 (Z.max p1 p2)).
Proof.
  intros H1 H2. unfold fixed_prec_add. codec self other H1 H2.
  unfold rescale_up, pow10. decide_precisions p1 p2.
Qed.

Lemma fixed_prec_sub_result (self other : tensorvar) (p1 p2 : Z) :
  fixed self p1 -> fixed other p2 ->
  exists out, fixed_prec_sub self (PTensorVar other) = Ok out
    /\ fixed out (Z.max p1 p2)
    /\ storage out
       = old_sub (rescale_up (storage self) p1 (Z.max p1 p2))
           (rescale_up (storage other) p2 (Z.max p1 p2)).
Proof.
  intros H1 H2. unfold fixed_prec_sub. codec self other H1 H2.
  unfold rescale_up, pow10. decide_precisions p1 p2.
Qed.

Lemma fixed_prec_div_result (self other : tensorvar) (p1 p2 : Z) :
  fixed self p1 -> fixed other p2 ->
  exists out, fixed_prec_div self (PTensorVar other) = Ok out
    /\ fixed out 0
    /\ storage out
       = old_div (rescale_up (storage self) p1 (Z.max p1 p2))
           (rescale_up (storage other) p2 (Z.max p1 p2)).
Proof.
  intros H1 H2. unfold fixed_prec_div. codec self other H1 H2.
  unfold rescale_up, pow10. decide_precisions p1 p2.
Qed.

(** C7: on two fixed-precision operands of precisions [p1] and [p2], [add]
    and [sub] rescale the operand of lower precision up by [10^|p1 - p2|]
    before the integer operation and tag the result with [max p1 p2]; [div]
    rescales the operands to the common precision in the same way and tags
    the result with precision 0. *)
Theorem fixed_prec_add_sub_div_precision (self other : tensorvar) (p1 p2 : Z) :
  fixed self p1 -> fixed other p2 ->
  let m := Z.max p1 p2 in
  let a := rescale_up (storage self) p1 m in
  let b := rescale_up (storage other) p2 m in
  (exists out, fixed_prec_add self (PTensorVar other) = Ok out
     /\ fixed out m /\ storage out = old_add a b)
  /\ (exists out, fixed_prec_sub self (PTensorVar other) = Ok out
     /\ fixed out m /\ storage out = old_sub a b)
  /\ (exists out, fixed_prec_div self (PTensorVar other) = Ok out
     /\ fixed out 0 /\ storage out = old_div a b).
Proof.
  intros H1 H2 m a b. subst a b m.
  split; [ | split ].
  - now apply fixed_prec_add_result.
  - now apply fixed_prec_sub_result.
  - now apply fixed_prec_div_result.
Qed.

(** When [self] carries the attribute, [add], [sub] and [div] never reach
    the [raise] of the mixed-operand error, whatever [other] is. *)
Lemma self_tagged_never_mismatch (self : tensorvar) (other : pyval) :
  is_Some (fixed_precision self) ->
  fixed_prec_add self other <> Raise PrecisionMismatchError
  /\ fixed_prec_sub self other <> Raise PrecisionMismatchError
  /\ fixed_prec_div self other <> Raise PrecisionMismatchError.
Proof.
  intros Hs.
  assert (Hh : hasattr_fixed_precision (PTensorVar self) = true)
    by (now apply bool_decide_eq_true).
  unfold fixed_prec_add, fixed_prec_sub, fixed_prec_div. rewrite Hh. cbn [andb].
  unfold getattr_precision, storage_of.
  destruct (precision self) as [p1 | ]; cbn [rbind];
    [ | repeat split; discriminate ].
  destruct other as [ | | | | tv | | ]; cbn [rbind];
    try (repeat split; discriminate).
  destruct (precision tv) as [p2 | ]; cbn [rbind];
    [ | repeat split; discriminate ].
  repeat split;
    repeat match goal with
      | |- context [if ?c then _ else _] => destruct c
      end; discriminate.
Qed.

(** C6: the mixed pair at which the code departs from the claim.  [x] is a
    fixed-precision tensor of precision 2; [y] is a tensor without the
    attributes, [z] one on which the lookup finds the class attribute
    [False].  [fixed_prec_mul] raises the mixed-operand error on [x] and
    [y]; [fixed_prec_add], [fixed_prec_sub] and [fixed_prec_div] enter the
    arithmetic branch and fail on the lookup of [precision] instead, and so
    does [fixed_prec_mul] on [x] and [z]. *)
Theorem mixed_operands_not_reported (s1 s2 : T) :
  let x := set_fixed (fresh_obj LongTensor s1) 2 in
  let y := fresh_obj LongTensor s2 in
  let z := set_class_fixed_precision (fresh_obj LongTensor s2) in
  fixed_prec_mul x (PTensorVar y) true = Raise PrecisionMismatchError
  /\ fixed_prec_add x (PTensorVar y) = Raise (no_attribute "precision")
  /\ fixed_prec_sub x (PTensorVar y) = Raise (no_attribute "precision")
  /\ fixed_prec_div x (PTensorVar y) = Raise (no_attribute "precision")
  /\ fixed_prec_mul x (PTensorVar z) true = Raise (no_attribute "precision")
  /\ fixed_prec_add x (PTensorVar z) = Raise (no_attribute "precision")
  /\ no_attribute "precision" <> PrecisionMismatchError.
Proof. repeat split; try reflexivity. discriminate. Qed.

End FixedPrecision.
(** * Routing *)

Section Routing.
Context {K : Kernel} {E : External}.


Lemma mapM_pure {A B : Type} (f : A -> M B) (g : A -> B) (P : A -> Prop)
  (l : list A) (w : world) :
  (forall a, P a -> forall w, f a w = (Ok (g a), w, [])) ->
  Forall P l ->
  mapM f l w = (Ok (map g l), w, []).
Proof.
  intros Hf Hl. induction Hl as [ | a l Ha Hl IH ]; [ reflexivity | ].
  cbn [mapM map]. unfold bind at 1. rewrite (Hf a Ha).
  unfold bind at 1. rewrite IH. reflexivity.
Qed.

Lemma tracked_is_pointer (tv : tensorvar) (w : world) :
  tracked tv ->
  read_is_pointer tv w = (Ok (default false (is_pointer tv)), w, []).
Proof.
  intros (_ & [b Hb] & _). unfold read_is_pointer. now rewrite Hb.
Qed.

Lemma tracked_owners (tv : tensorvar) (w : world) :
  tracked tv ->
  read_owners tv w = (Ok (default [] (owners tv)), w, []).
Proof.
  intros (_ & _ & o & os & Ho). unfold read_owners, getattr_owners.
  now rewrite Ho.
Qed.

Lemma flags_has_remote (tensorvars : list tensorvar) :
  existsb (fun b => b) (map (fun tv => default false (is_pointer tv)) tensorvars)
  = has_remote tensorvars.
Proof.
  unfold has_remote. induction tensorvars as [ | tv tvs IH ]; [ reflexivity | ].
  cbn [map existsb]. rewrite IH. f_equal.
  destruct (is_pointer tv) as [ [ | ] | ]; reflexivity.
Qed.

(** What [_execute_remote_call] does once the command is compiled and the
    operands are tracked values: the three branches on [has_remote] and the
    number of owners. *)
Lemma remote_call_multi (_method : partial) (has_self : bool) (command : command)
  (tensorvars : list tensorvar) (w : world) :
  _compile_command _method has_self = Ok (command, tensorvars) ->
  Forall tracked tensorvars ->
  has_remote tensorvars = true ->
  (1 < length (owners_of tensorvars))%nat ->
  _execute_remote_call _method has_self w = (Raise UnsupportedMultiPartyError, w, []).
Proof.
  intros Hc Ht Hr Hm. unfold _execute_remote_call.
  unfold bind at 1. unfold lift. rewrite Hc. cbn [fst snd].
  unfold bind at 1.
  rewrite (mapM_pure read_is_pointer _ tracked _ _
             (fun a Ha w' => tracked_is_pointer a w' Ha) Ht).
  unfold bind at 1.
  rewrite (mapM_pure read_owners _ tracked _ _
             (fun a Ha w' => tracked_owners a w' Ha) Ht).
  rewrite flags_has_remote, Hr. fold (owners_of tensorvars).
  rewrite (bool_decide_eq_true_2 _ Hm). reflexivity.
Qed.


(** ** Events of a computation *)

Lemma emits_ret {A : Type} (P : event -> Prop) (a : A) : emits P (ret a).
Proof. intros w. constructor. Qed.

Lemma emits_raise {A : Type} (P : event -> Prop) (e : exn) : emits P (@raise K A e).
Proof. intros w. constructor. Qed.

Lemma emits_lift {A : Type} (P : event -> Prop) (r : result A) : emits P (lift r).
Proof. intros w. constructor. Qed.

Lemma emits_get_world (P : event -> Prop) : emits P (@get_world K).
Proof. intros w. constructor. Qed.

Lemma emits_emit (P : event -> Prop) (ev : event) : P ev -> emits P (@emit K ev).
Proof. intros H w. repeat constructor. exact H. Qed.

Lemma emits_bind {A B : Type} (P : event -> Prop) (m : M A) (k : A -> M B) :
  emits P m -> (forall a, emits P (k a)) -> emits P (bind m k).
Proof.
  intros Hm Hk w. unfold bind. specialize (Hm w).
  destruct (m w) as [[[a | e] w1] evs1]; cbn [snd] in *; [ | exact Hm ].
  specialize (Hk a w1). destruct (k a w1) as [[r w2] evs2]; cbn [snd] in *.
  apply Forall_app. now split.
Qed.

Lemma emits_mapM {A B : Type} (P : event -> Prop) (f : A -> M B) (l : list A) :
  (forall a, emits P (f a)) -> emits P (mapM f l).
Proof.
  intros Hf. induction l as [ | a l IH ]; cbn [mapM].
  - apply emits_ret.
  - apply emits_bind; [ apply Hf | intros b ].
    apply emits_bind; [ exact IH | intros bs; apply emits_ret ].
Qed.

Lemma emits_except {A : Type} (P : event -> Prop) (m : M A) (e : exn) :
  emits P m -> emits P (except_KeyError m e).
Proof.
  intros Hm w. unfold except_KeyError. specialize (Hm w).
  destruct (m w) as [[[a | []] w1] evs1]; exact Hm.
Qed.

Lemma emits_register_object (P : event -> Prop) (obj : tensorvar) (reg : registration) :
  (forall i os p t, P (Register i os p t)) -> emits P (register_object obj reg).
Proof. intros H w. repeat constructor. apply H. Qed.

Lemma bookkeeping_register_object (obj : tensorvar) (reg : registration) :
  emits bookkeeping (register_object obj reg).
Proof. now apply emits_register_object. Qed.

Lemma bookkeeping_new (cls : torch_type) (arg : ctor_arg) (rg vol : bool) :
  emits bookkeeping (new___new__ cls arg rg vol).
Proof.
  unfold new___new__. apply emits_bind; [ now apply emits_emit | intros _ ].
  apply emits_bind; [ apply bookkeeping_register_object | intros r; apply emits_ret ].
Qed.

Lemma bookkeeping_types_guard (name : string) : emits bookkeeping (types_guard name).
Proof.
  unfold types_guard. apply emits_bind; [ now apply emits_emit | intros _ ].
  destruct (known_type name); [ apply emits_ret | apply emits_raise ].
Qed.

Lemma bookkeeping_assemble (m : pointer_msg) :
  emits bookkeeping (_assemble_result_pointer m).
Proof.
  revert m. fix IH 1. intros [reg torch_type var_data var_grad].
  cbn [_assemble_result_pointer].
  apply emits_bind; [ apply emits_except, bookkeeping_types_guard | intros cls ].
  apply emits_bind.
  - destruct var_data as [ d | ].
    + apply emits_bind; [ apply IH | intros p; apply emits_ret ].
    + destruct (is_var_type cls); [ | apply emits_ret ].
      apply emits_bind; [ apply bookkeeping_new | intros t; apply emits_ret ].
  - intros data. apply emits_bind; [ apply bookkeeping_new | intros r ].
    apply bookkeeping_register_object.
Qed.

Lemma bookkeeping_handle_response (r : response) :
  emits bookkeeping (handle_response r).
Proof.
  destruct r as [ v | ty v | m ]; cbn [handle_response]; try apply emits_ret.
  apply emits_bind; [ apply bookkeeping_assemble | intros p; apply emits_ret ].
Qed.

Lemma bookkeeping_quiet (evs : list event) :
  Forall bookkeeping evs -> dispatched evs = false /\ executed_locally evs = false.
Proof.
  unfold dispatched, executed_locally.
  induction 1 as [ | ev evs Hev _ [IH1 IH2] ]; [ now split | ].
  cbn [existsb]. rewrite IH1, IH2. destruct ev; cbn in *; tauto.
Qed.


(** ** The three branches of [_execute_remote_call] *)

Lemma remote_call_local (_method : partial) (has_self : bool) (command : command)
  (tensorvars : list tensorvar) (w : world) :
  _compile_command _method has_self = Ok (command, tensorvars) ->
  Forall tracked tensorvars ->
  has_remote tensorvars = false ->
  exists multiple_owners,
    _execute_remote_call _method has_self w
    = (Ok (PNone, false, multiple_owners), w, []).
Proof.
  intros Hc Ht Hr. unfold _execute_remote_call.
  unfold bind at 1. unfold lift. rewrite Hc. cbn [fst snd].
  unfold bind at 1.
  rewrite (mapM_pure read_is_pointer _ tracked _ _
             (fun a Ha w' => tracked_is_pointer a w' Ha) Ht).
  unfold bind at 1.
  rewrite (mapM_pure read_owners _ tracked _ _
             (fun a Ha w' => tracked_owners a w' Ha) Ht).
  rewrite flags_has_remote, Hr. cbn [andb]. eexists. reflexivity.
Qed.

Lemma remote_call_single (_method : partial) (has_self : bool) (command : command)
  (tensorvars : list tensorvar) (w : world) (worker : Z) :
  _compile_command _method has_self = Ok (command, tensorvars) ->
  Forall tracked tensorvars ->
  has_remote tensorvars = true ->
  owners_of tensorvars = [worker] ->
  exists r w' evs,
    _execute_remote_call _method has_self w
    = (r, w', SendCommand worker command :: evs)
    /\ Forall bookkeeping evs
    /\ match r with
       | Ok (_, has_remote, multiple_owners) =>
           has_remote = true /\ multiple_owners = false
       | Raise _ => True
       end.
Proof.
  intros Hc Ht Hr Ho. unfold _execute_remote_call.
  unfold bind at 1. unfold lift. rewrite Hc. cbn [fst snd].
  unfold bind at 1.
  rewrite (mapM_pure read_is_pointer _ tracked _ _
             (fun a Ha w' => tracked_is_pointer a w' Ha) Ht).
  unfold bind at 1.
  rewrite (mapM_pure read_owners _ tracked _ _
             (fun a Ha w' => tracked_owners a w' Ha) Ht).
  rewrite flags_has_remote, Hr. fold (owners_of tensorvars). rewrite Ho.
  cbn [length andb negb app]. rewrite bool_decide_eq_false_2 by (cbn; lia).
  cbn [negb]. unfold bind at 1. unfold emit. unfold bind at 1.
  destruct (send_torch_command worker command) as [ rs | e ].
  2: { do 3 eexists. split; [ reflexivity | ]. split; [ constructor | exact I ]. }
  set (responses := match rs with OneResponse r => [r] | ResponseList rs' => rs' end).
  unfold bind at 1.
  pose proof (emits_mapM bookkeeping handle_response responses
                bookkeeping_handle_response w) as Hev.
  destruct (mapM handle_response responses w) as [[[pointers | e] w1] evs1];
    cbn [snd] in Hev.
  2: { do 3 eexists. split; [ reflexivity | ]. split; [ exact Hev | exact I ]. }
  destruct pointers as [ | pointer [ | pointer' pointers ] ];
    do 3 eexists; (split; [ reflexivity | ]);
    rewrite ?app_nil_r; (split; [ exact Hev | ]); auto.
Qed.

(** When some operand is a pointer, the torch function is not run by
    [_execute_remote_call], and a normal return says "remote, one owner". *)
Lemma remote_call_remote (_method : partial) (has_self : bool) (command : command)
  (tensorvars : list tensorvar) (w : world) :
  _compile_command _method has_self = Ok (command, tensorvars) ->
  Forall tracked tensorvars ->
  has_remote tensorvars = true ->
  exists r w' evs,
    _execute_remote_call _method has_self w = (r, w', evs)
    /\ executed_locally evs = false
    /\ match r with
       | Ok (_, has_remote, multiple_owners) =>
           has_remote = true /\ multiple_owners = false
       | Raise _ => True
       end.
Proof.
  intros Hc Ht Hr.
  destruct (owners_of tensorvars) as [ | worker [ | worker' rest ] ] eqn:Ho.
  - exists (Ok (PNone, true, false)), w, [].
    split; [ | now split ]. unfold _execute_remote_call.
    unfold bind at 1. unfold lift. rewrite Hc. cbn [fst snd].
    unfold bind at 1.
    rewrite (mapM_pure read_is_pointer _ tracked _ _
               (fun a Ha w' => tracked_is_pointer a w' Ha) Ht).
    unfold bind at 1.
    rewrite (mapM_pure read_owners _ tracked _ _
               (fun a Ha w' => tracked_owners a w' Ha) Ht).
    rewrite flags_has_remote, Hr. fold (owners_of tensorvars). rewrite Ho.
    reflexivity.
  - destruct (remote_call_single _ _ _ _ w worker Hc Ht Hr Ho)
      as (r & w' & evs & Hrun & Hev & Hflags).
    exists r, w', (SendCommand worker command :: evs).
    split; [ exact Hrun | ]. split; [ | exact Hflags ].
    apply bookkeeping_quiet in Hev. unfold executed_locally in *. cbn. tauto.
  - exists (Raise UnsupportedMultiPartyError), w, [].
    split; [ | now split ].
    apply (remote_call_multi _ _ command tensorvars); auto.
    rewrite Ho. cbn. lia.
Qed.

Lemma compile_function (func : string) (args : list pyval)
  (kwargs : list (string * pyval)) :
  exists command,
    _compile_command (pass_args func args kwargs) false
    = Ok (command, operands (pass_args func args kwargs)).
Proof. eexists. reflexivity. Qed.

Lemma compile_method (method : string) (self : pyval) (args : list pyval)
  (kwargs : list (string * pyval)) :
  exists command,
    _compile_command (pass_args method (self :: args) kwargs) true
    = Ok (command, operands (pass_args method (self :: args) kwargs)).
Proof.
  eexists. unfold _compile_command, operands. cbn [pass_args p_args p_keywords flat_map].
  rewrite <- app_assoc. reflexivity.
Qed.

(** [_execute_local_call] runs the torch function first and never reaches a
    worker. *)
Lemma local_call_events (self : pyval) (_method : partial) (args : list pyval)
  (kwargs : list (string * pyval)) (function_not_method : bool) (w : world) :
  exists r w' evs,
    _execute_local_call self _method args kwargs function_not_method w
    = (r, w', TorchCall (func_name _method) :: evs)
    /\ Forall bookkeeping evs.
Proof.
  unfold _execute_local_call, call_func.
  assert (H : forall xs,
    exists r w' evs,
      bind (bind (emit (TorchCall (func_name _method)))
              (fun _ => lift (torch_func (func_name _method) xs kwargs)))
        (fun result =>
           match result with
           | PTensorVar r0 =>
               if bool_decide (tv_type r0 ∈ tensorvar_types)
               then bind (register_object r0 (kw None None (Some false) false))
                      (fun r' => ret (PTensorVar r'))
               else ret result
           | _ => ret result
           end) w
      = (r, w', TorchCall (func_name _method) :: evs) /\ Forall bookkeeping evs).
  { intros xs. unfold bind, emit, lift, ret, register_object.
    destruct (torch_func (func_name _method) xs kwargs) as [ [ | | | | r0 | | ] | e ];
      try (do 3 eexists; split; [ reflexivity | repeat constructor ]).
    destruct (bool_decide (tv_type r0 ∈ tensorvar_types));
      do 3 eexists; (split; [ reflexivity | repeat constructor ]). }
  destruct function_not_method; apply H.
Qed.

End Routing.

Section RoutingClaims.
Context {K : Kernel} {E : External}.

Lemma fixed_call_no_dispatch (self : tensorvar) (_method : partial)
  (args : list pyval) (kwargs : list (string * pyval)) (w : world) :
  dispatched (snd (_execute_fixed_precision_call self _method args kwargs w)) = false.
Proof.
  unfold _execute_fixed_precision_call.
  repeat match goal with
    | |- context [if String.eqb ?a ?b then _ else _] => destruct (String.eqb a b)
    end; reflexivity.
Qed.

Lemma operands_method (name : string) (self : tensorvar) (args : list pyval)
  (kwargs : list (string * pyval)) :
  operands (pass_args name (PTensorVar self :: args) kwargs)
  = self :: operands (pass_args name args kwargs).
Proof. reflexivity. Qed.

Lemma function_router_multi (name : string) (args : list pyval)
  (kwargs : list (string * pyval)) (w : world) :
  Forall tracked (operands (pass_args name args kwargs)) ->
  has_remote (operands (pass_args name args kwargs)) = true ->
  (1 < length (owners_of (operands (pass_args name args kwargs))))%nat ->
  function_router name args kwargs w = (Raise UnsupportedMultiPartyError, w, []).
Proof.
  intros Ht Hr Hm. destruct (compile_function name args kwargs) as [command Hc].
  unfold function_router, bind.
  now rewrite (remote_call_multi _ _ _ _ w Hc Ht Hr Hm).
Qed.

Lemma method_router_multi (name : string) (self : tensorvar) (args : list pyval)
  (kwargs : list (string * pyval)) (w : world) :
  Forall tracked (operands (pass_args name (PTensorVar self :: args) kwargs)) ->
  is_pointer self = Some true ->
  (1 < length (owners_of (operands (pass_args name (PTensorVar self :: args) kwargs))))%nat ->
  method_router name self args kwargs w = (Raise UnsupportedMultiPartyError, w, []).
Proof.
  intros Ht Hp Hm.
  destruct (compile_method name (PTensorVar self) args kwargs) as [command Hc].
  unfold method_router. rewrite Hp. unfold bind.
  rewrite (remote_call_multi _ _ _ _ w Hc Ht); auto.
  rewrite operands_method. cbn [has_remote existsb]. rewrite Hp.
  now rewrite bool_decide_eq_true_2.
Qed.

(** Two operands with different single owners make more than one owner,
    whether they are pointers or not. *)
Lemma two_owners (tensorvars : list tensorvar) (a b : tensorvar) (wa wb : Z) :
  a ∈ tensorvars -> b ∈ tensorvars ->
  owners a = Some [wa] -> owners b = Some [wb] -> wa <> wb ->
  (1 < length (owners_of tensorvars))%nat.
Proof.
  intros Ha Hb Hoa Hob Hne.
  assert (Hin : forall tv o, tv ∈ tensorvars -> owners tv = Some [o] ->
                             o ∈ owners_of tensorvars).
  { intros tv o Htv Ho. unfold owners_of. apply elem_of_remove_dups.
    apply list_elem_of_In, in_concat. exists [o]. split; [ | now left ].
    apply in_map_iff. exists tv. split; [ now rewrite Ho | ].
    now apply list_elem_of_In. }
  pose proof (Hin a wa Ha Hoa) as Hwa. pose proof (Hin b wb Hb Hob) as Hwb.
  destruct (owners_of tensorvars) as [ | x [ | y rest ] ].
  - inversion Hwa.
  - apply list_elem_of_singleton in Hwa, Hwb. congruence.
  - cbn. lia.
Qed.

(** The routers on the remote path return what [_execute_remote_call]
    returns. *)
Lemma method_router_remote (name : string) (self : tensorvar) (args : list pyval)
  (kwargs : list (string * pyval)) (w : world) :
  is_pointer self = Some true ->
  method_router name self args kwargs w
  = returned_pointer
      (_execute_remote_call (pass_args name (PTensorVar self :: args) kwargs) true w).
Proof.
  intros Hp. unfold method_router. rewrite Hp. unfold bind, returned_pointer.
  destruct (_execute_remote_call _ true w) as [[[res | e] w1] evs]; [ | reflexivity ].
  cbn. now rewrite app_nil_r.
Qed.

Lemma function_router_remote (name : string) (args : list pyval)
  (kwargs : list (string * pyval)) (w : world) :
  match _execute_remote_call (pass_args name args kwargs) false w with
  | (Ok (_, has_remote, multiple_owners), _, _) =>
      has_remote = true /\ multiple_owners = false
  | _ => True
  end ->
  function_router name args kwargs w
  = returned_pointer (_execute_remote_call (pass_args name args kwargs) false w).
Proof.
  unfold function_router, bind, returned_pointer.
  destruct (_execute_remote_call _ false w) as [[[[[p hr] mo] | e] w1] evs];
    [ | reflexivity ].
  intros [-> ->]. cbn. now rewrite app_nil_r.
Qed.

(** With a pointer among the tracked operands, [_execute_remote_call] goes
    by the owners of all operands: no owner, one owner, several. *)
Lemma remote_call_outcome (_method : partial) (has_self : bool) (command : command)
  (tensorvars : list tensorvar) (w : world) :
  _compile_command _method has_self = Ok (command, tensorvars) ->
  Forall tracked tensorvars ->
  has_remote tensorvars = true ->
  let run := _execute_remote_call _method has_self w in
  match fst (fst run) with
  | Ok (_, has_remote, multiple_owners) => has_remote = true /\ multiple_owners = false
  | Raise _ => True
  end
  /\ executed_locally (snd run) = false
  /\ match owners_of tensorvars with
     | [] => returned_pointer run = (Ok PNone, w, [])
     | [worker] =>
         exists r w' evs,
           returned_pointer run = (r, w', SendCommand worker command :: evs)
           /\ Forall bookkeeping evs
     | _ => returned_pointer run = (Raise UnsupportedMultiPartyError, w, [])
     end.
Proof.
  intros Hc Ht Hr run. subst run.
  destruct (remote_call_remote _ _ _ _ w Hc Ht Hr) as (r & w' & evs & Hrun & He & Hf).
  rewrite Hrun. cbn [fst snd]. split; [ exact Hf | ]. split; [ exact He | ].
  destruct (owners_of tensorvars) as [ | worker [ | worker' rest ] ] eqn:Ho.
  - assert (Hnone : _execute_remote_call _method has_self w = (Ok (PNone, true, false), w, [])).
    { unfold _execute_remote_call.
      unfold bind at 1. unfold lift. rewrite Hc. cbn [fst snd].
      unfold bind at 1.
      rewrite (mapM_pure read_is_pointer _ tracked _ _
                 (fun a Ha w' => tracked_is_pointer a w' Ha) Ht).
      unfold bind at 1.
      rewrite (mapM_pure read_owners _ tracked _ _
                 (fun a Ha w' => tracked_owners a w' Ha) Ht).
      rewrite flags_has_remote, Hr. fold (owners_of tensorvars). rewrite Ho.
      reflexivity. }
    rewrite Hnone in Hrun. injection Hrun as <- <- <-. reflexivity.
  - destruct (remote_call_single _ _ _ _ w worker Hc Ht Hr Ho)
      as (r1 & w1 & evs1 & Hrun1 & Hev1 & _).
    rewrite Hrun1 in Hrun. injection Hrun as <- <- <-.
    destruct r1 as [ res | e ]; do 3 eexists; (split; [ reflexivity | exact Hev1 ]).
  - assert (Hm : (1 < length (owners_of tensorvars))%nat) by (rewrite Ho; cbn; lia).
    rewrite (remote_call_multi _ _ command tensorvars w Hc Ht Hr Hm) in Hrun.
    injection Hrun as <- <- <-. reflexivity.
Qed.

Lemma took_remote_path_function (name : string) (args : list pyval)
  (kwargs : list (string * pyval)) (w : world) :
  Forall tracked (operands (pass_args name args kwargs)) ->
  has_remote (operands (pass_args name args kwargs)) = true ->
  took_remote_path (pass_args name args kwargs) false
    (operands (pass_args name args kwargs)) w (function_router name args kwargs w)
  /\ executed_locally (snd (function_router name args kwargs w)) = false.
Proof.
  intros Ht Hr. destruct (compile_function name args kwargs) as [command Hc].
  destruct (remote_call_outcome _ _ _ _ w Hc Ht Hr) as (Hf & He & Ho).
  assert (Heq : function_router name args kwargs w
                = returned_pointer
                    (_execute_remote_call (pass_args name args kwargs) false w)).
  { apply function_router_remote.
    destruct (_execute_remote_call (pass_args name args kwargs) false w)
      as [[[[[p hr] mo] | e] w1] evs]; [ exact Hf | exact I ]. }
  split.
  - exists command. split; [ exact Hc | ]. split; [ exact Heq | ].
    rewrite Heq. exact Ho.
  - rewrite Heq. unfold returned_pointer.
    destruct (_execute_remote_call (pass_args name args kwargs) false w)
      as [[[res | e] w1] evs]; exact He.
Qed.

Lemma took_remote_path_method (name : string) (self : tensorvar) (args : list pyval)
  (kwargs : list (string * pyval)) (w : world) :
  Forall tracked (operands (pass_args name args kwargs)) -> tracked self ->
  is_pointer self = Some true ->
  took_remote_path (pass_args name (PTensorVar self :: args) kwargs) true
    (self :: operands (pass_args name args kwargs)) w
    (method_router name self args kwargs w)
  /\ executed_locally (snd (method_router name self args kwargs w)) = false.
Proof.
  intros Ht Hs Hp.
  destruct (compile_method name (PTensorVar self) args kwargs) as [command Hc].
  rewrite operands_method in Hc.
  assert (Hmt : Forall tracked (self :: operands (pass_args name args kwargs)))
    by now constructor.
  assert (Hmr : has_remote (self :: operands (pass_args name args kwargs)) = true).
  { cbn [has_remote existsb]. rewrite Hp. now rewrite bool_decide_eq_true_2. }
  destruct (remote_call_outcome _ _ _ _ w Hc Hmt Hmr) as (Hf & He & Ho).
  pose proof (method_router_remote name self args kwargs w Hp) as Heq.
  split.
  - exists command. split; [ exact Hc | ]. split; [ exact Heq | ].
    rewrite Heq. exact Ho.
  - rewrite Heq. unfold returned_pointer.
    destruct (_execute_remote_call (pass_args name (PTensorVar self :: args) kwargs) true w)
      as [[[res | e] w1] evs]; exact He.
Qed.

(** [_execute_local_call] starts with the torch function and reaches no
    worker. *)
Lemma local_call_shape (self : pyval) (_method : partial) (args : list pyval)
  (kwargs : list (string * pyval)) (function_not_method : bool) (w : world) :
  let evs := snd (_execute_local_call self _method args kwargs function_not_method w) in
  hd_error evs = Some (TorchCall (func_name _method))
  /\ executed_locally evs = true /\ dispatched evs = false.
Proof.
  destruct (local_call_events self _method args kwargs function_not_method w)
    as (r & w' & evs & Hl & Hb).
  rewrite Hl. cbn [snd hd_error]. split; [ reflexivity | ].
  apply bookkeeping_quiet in Hb as [Hd _].
  unfold executed_locally, dispatched in *. cbn. now rewrite Hd.
Qed.

(** C1 (as amended): a torch module function is executed locally exactly
    when no operand found by the command compiler is a pointer: it is then
    the local call, which starts with the torch function and reaches no
    worker; with a pointer operand it takes the remote path and the torch
    function is not run.  A tensor or variable method is routed on [self]
    alone: with a pointer [self] it takes the remote path, on the operands
    [self], args and kwargs; with a [self] that is not a pointer the call is
    never dispatched to a worker, whatever the arguments are, and unless
    [self] is fixed-precision it is the local call.  On the remote path the
    compiled command is sent to the one owner of the operands before
    anything else, or the call is refused when the owners are several. *)
Theorem routing_rule (name : string) (self : tensorvar) (args : list pyval)
  (kwargs : list (string * pyval)) (w : world) :
  Forall tracked (operands (pass_args name args kwargs)) ->
  tracked self ->
  let part := pass_args name args kwargs in
  let mpart := pass_args name (PTensorVar self :: args) kwargs in
  let ops := operands part in
  let frun := function_router name args kwargs w in
  let mrun := method_router name self args kwargs w in
  (has_remote ops = false ->
     frun = _execute_local_call PNone part args kwargs true w
     /\ hd_error (snd frun) = Some (TorchCall name)
     /\ executed_locally (snd frun) = true /\ dispatched (snd frun) = false)
  /\ (has_remote ops = true ->
     took_remote_path part false ops w frun
     /\ executed_locally (snd frun) = false)
  /\ (is_pointer self = Some true ->
     took_remote_path mpart true (self :: ops) w mrun
     /\ executed_locally (snd mrun) = false)
  /\ (is_pointer self <> Some true ->
      dispatched (snd mrun) = false
      /\ (fixed_precision self <> Some true ->
          mrun = _execute_local_call (PTensorVar self) mpart args kwargs false w
          /\ hd_error (snd mrun) = Some (TorchCall name)
          /\ executed_locally (snd mrun) = true)).
Proof.
  intros Ht Hself part mpart ops frun mrun. subst part mpart ops frun mrun.
  destruct (compile_function name args kwargs) as [command Hc].
  split; [ | split; [ | split ] ].
  - intros Hr.
    destruct (remote_call_local _ _ _ _ w Hc Ht Hr) as [mo Hrun].
    assert (Heq : function_router name args kwargs w
                  = _execute_local_call PNone (pass_args name args kwargs) args kwargs true w).
    { unfold function_router. unfold bind at 1. rewrite Hrun. cbn [fst snd andb].
      destruct (_execute_local_call PNone (pass_args name args kwargs) args kwargs true w)
        as [[r w'] evs]. reflexivity. }
    split; [ exact Heq | ]. rewrite Heq.
    apply (local_call_shape PNone (pass_args name args kwargs) args kwargs true w).
  - intros Hr. now apply took_remote_path_function.
  - intros Hp. now apply took_remote_path_method.
  - intros Hp. unfold method_router.
    pose proof (local_call_shape (PTensorVar self)
                  (pass_args name (PTensorVar self :: args) kwargs) args kwargs false w)
      as (Hhd & Hex & Hd).
    destruct (is_pointer self) as [ [ | ] | ]; [ congruence | | ];
      (destruct (fixed_precision self) as [ [ | ] | ];
       [ split; [ apply fixed_call_no_dispatch | congruence ]
       | split; [ exact Hd | intros _; split; [ reflexivity | split; [ exact Hhd | exact Hex ] ] ]
       | split; [ exact Hd | intros _; split; [ reflexivity | split; [ exact Hhd | exact Hex ] ] ] ]).
Qed.


(** C3: a call with a pointer operand whose operands span more than one
    owner fails with the multi-party error; nothing is sent, no torch
    function is run and the world is unchanged.  So it is for
    [_execute_remote_call] and for the two routers that go through it: a
    module function, and a method on a pointer. *)
Theorem multi_party_call_fails (_method : partial) (has_self : bool)
  (command : command) (tensorvars : list tensorvar) (w : world) :
  _compile_command _method has_self = Ok (command, tensorvars) ->
  Forall tracked tensorvars ->
  has_remote tensorvars = true ->
  (1 < length (owners_of tensorvars))%nat ->
  _execute_remote_call _method has_self w = (Raise UnsupportedMultiPartyError, w, [])
  /\ (has_self = false ->
      function_router (func_name _method) (p_args _method) (p_keywords _method) w
      = (Raise UnsupportedMultiPartyError, w, []))
  /\ (forall self args,
        has_self = true -> p_args _method = PTensorVar self :: args ->
        is_pointer self = Some true ->
        method_router (func_name _method) self args (p_keywords _method) w
        = (Raise UnsupportedMultiPartyError, w, [])).
Proof.
  intros Hc Ht Hr Hm. split; [ | split ].
  - now apply (remote_call_multi _ _ command tensorvars).
  - intros ->. destruct _method as [name args kwargs]. cbn [func_name p_args p_keywords].
    destruct (compile_function name args kwargs) as [c Hc'].
    change (pass_args name args kwargs) with (Build_partial name args kwargs) in Hc'.
    rewrite Hc in Hc'. injection Hc' as _ ->.
    now apply function_router_multi.
  - intros self args -> Hargs Hp. destruct _method as [name args' kwargs].
    cbn [func_name p_args p_keywords] in *. subst args'.
    destruct (compile_method name (PTensorVar self) args kwargs) as [c Hc'].
    change (pass_args name (PTensorVar self :: args) kwargs)
      with (Build_partial name (PTensorVar self :: args) kwargs) in Hc'.
    rewrite Hc in Hc'. injection Hc' as _ ->.
    now apply method_router_multi.
Qed.

(** C10: [fixed_prec_trudiv] is [fixed_prec_div]: on fixed-precision tensors
    the [trudiv] dispatch of [_execute_fixed_precision_call] does what the
    [div] dispatch does, the integer division of the operands rescaled to
    their common precision, with result precision 0. *)
Theorem fixed_prec_trudiv_is_div (self other : tensorvar) (p1 p2 : Z) (w : world) :
  fixed self p1 -> fixed other p2 -> is_tensor_type (tv_type self) = true ->
  let args := [PTensorVar other] in
  let call name :=
    _execute_fixed_precision_call self (pass_args name (PTensorVar self :: args) [])
      args [] w in
  @fixed_prec_trudiv K = fixed_prec_div
  /\ call "trudiv" = call "div"
  /\ exists out,
       call "trudiv" = (Ok (PTensorVar out), w, [])
       /\ fixed out 0
       /\ storage out
          = old_div (rescale_up (storage self) p1 (Z.max p1 p2))
              (rescale_up (storage other) p2 (Z.max p1 p2)).
Proof.
  intros H1 H2 Hty args call. subst args call.
  split; [ reflexivity | ].
  destruct (fixed_prec_div_result self other p1 p2 H1 H2) as (out & Hdiv & Hfix & Hst).
  unfold _execute_fixed_precision_call, call_binary, fixed_prec_trudiv.
  cbn [pass_args func_name String.eqb Ascii.eqb Bool.eqb].
  rewrite Hty. cbn. rewrite Hdiv. cbn.
  split; [ reflexivity | ]. exists out. now split.
Qed.

End RoutingClaims.

(** * Type guard *)

Section TypeGuard.
Context {K : Kernel} {E : External}.

Lemma final_quiet {A : Type} (m : M A) :
  emits (fun ev => rejected ev = false) m -> final_in m.
Proof. intros H w. left. apply H. Qed.

Lemma final_bind {A B : Type} (m : M A) (k : A -> M B) :
  final_in m -> (forall a, final_in (k a)) -> final_in (bind m k).
Proof.
  intros Hm Hk w. unfold bind. specialize (Hm w).
  destruct (m w) as [[[a | e] w1] evs1]; cbn [fst snd] in *.
  2: { destruct Hm as [H | (pre & name & e' & Hev & Hpre & Hn & Hr & Hu)];
         [ now left | right ].
       exists pre, name, e'. repeat split; auto. congruence. }
  assert (Hclean : Forall (fun ev => rejected ev = false) evs1).
  { destruct Hm as [H | (pre & name & e & _ & _ & _ & Hr & _)];
      [ exact H | discriminate ]. }
  specialize (Hk a w1). destruct (k a w1) as [[r w2] evs2]; cbn [fst snd] in *.
  destruct Hk as [H | (pre & name & e & -> & Hpre & Hn & Hr & Hu)].
  - left. apply Forall_app. now split.
  - right. exists (evs1 ++ pre), name, e. rewrite app_assoc.
    split; [ reflexivity | ]. split; [ apply Forall_app; now split | ]. auto.
Qed.

Lemma final_ret {A : Type} (a : A) : final_in (ret a).
Proof. apply final_quiet, emits_ret. Qed.

Lemma final_raise {A : Type} (e : exn) : final_in (@raise K A e).
Proof. apply final_quiet, emits_raise. Qed.

Lemma final_lift {A : Type} (r : result A) : final_in (lift r).
Proof. apply final_quiet, emits_lift. Qed.

Lemma final_register_object (obj : tensorvar) (reg : registration) :
  final_in (register_object obj reg).
Proof. apply final_quiet, emits_register_object. reflexivity. Qed.

Lemma final_new (cls : torch_type) (arg : ctor_arg) (rg vol : bool) :
  final_in (new___new__ cls arg rg vol).
Proof.
  apply final_quiet. unfold new___new__.
  apply emits_bind; [ now apply emits_emit | intros _ ].
  apply emits_bind; [ now apply emits_register_object | intros r; apply emits_ret ].
Qed.

Lemma final_types_guard (name : string) : final_in (types_guard name).
Proof.
  intros w. unfold types_guard, bind, emit, ret, raise.
  destruct (known_type name) as [ ty | ] eqn:Hn; cbn [fst snd app].
  - left. repeat constructor. unfold rejected. now rewrite Hn.
  - right. exists [], name, (KeyError name). repeat split; auto. now left.
Qed.

Lemma final_types_guard_except (name : string) :
  final_in (except_KeyError (types_guard name) (TypeError (non_torch_msg name))).
Proof.
  intros w. unfold except_KeyError, types_guard, bind, emit, ret, raise.
  destruct (known_type name) as [ ty | ] eqn:Hn; cbn [fst snd app].
  - left. repeat constructor. unfold rejected. now rewrite Hn.
  - right. exists [], name, (TypeError (non_torch_msg name)). repeat split; auto. now right.
Qed.

Lemma final_handle_register (obj : tensorvar) (obj_msg : msg) (tmp : bool) :
  final_in (handle_register obj obj_msg tmp).
Proof. apply final_register_object. Qed.

Lemma final_setattr_grad (var : tensorvar) (g : option tensorvar) :
  final_in (setattr_grad var g).
Proof.
  apply final_quiet. unfold setattr_grad.
  apply emits_bind; [ now apply emits_emit | intros _; apply emits_ret ].
Qed.

Lemma final_msg_flag (obj_msg : msg) :
  final_in (msg_requires_grad obj_msg) /\ final_in (msg_volatile obj_msg).
Proof.
  destruct obj_msg as [? ? ? ? ? ? [[rg vol] | ]]; split;
    first [ apply final_ret | apply final_raise ].
Qed.

Lemma final_tensor_deser (self : torch_type) (obj_msg : msg) :
  final_in (tensor_deser self obj_msg).
Proof.
  destruct obj_msg as [? [ | xs | m ] ? ? ? ? ?]; cbn [tensor_deser].
  - apply final_new.
  - apply final_bind; [ apply final_lift | intros; apply final_new ].
  - apply final_raise.
Qed.

Lemma final_assemble (m : pointer_msg) : final_in (_assemble_result_pointer m).
Proof.
  revert m. fix IH 1. intros [reg torch_type var_data var_grad].
  cbn [_assemble_result_pointer].
  apply final_bind; [ apply final_types_guard_except | intros cls ].
  apply final_bind.
  - destruct var_data as [ d | ].
    + apply final_bind; [ apply IH | intros p; apply final_ret ].
    + destruct (is_var_type cls); [ | apply final_ret ].
      apply final_bind; [ apply final_new | intros t; apply final_ret ].
  - intros data. apply final_bind; [ apply final_new | intros r ].
    apply final_register_object.
Qed.

Lemma final_deser_build (obj_msg : msg) :
  (forall self, final_in (deser self obj_msg))
  /\ (forall torch_type, final_in (_build_var obj_msg torch_type)).
Proof.
  revert obj_msg. fix IH 1.
  intros [tn data_field grad_field i os p flags].
  assert (Hdata : forall tmp,
    final_in (match data_field with
              | DataNested data_msg =>
                  bind (types_guard (msg_torch_type data_msg)) (fun tensor_type =>
                  bind (deser tensor_type data_msg) (fun data_obj =>
                  bind (handle_register data_obj data_msg tmp) (fun d => ret (Some d))))
              | DataNumbers _ => raise (TypeError "the JSON object must be str")
              | DataAbsent => ret None
              end)).
  { intros tmp. destruct data_field as [ | xs | data_msg ];
      [ apply final_ret | apply final_raise | ].
    apply final_bind; [ apply final_types_guard | intros ty ].
    apply final_bind; [ apply (IH data_msg) | intros data_obj ].
    apply final_bind; [ apply final_handle_register | intros; apply final_ret ]. }
  assert (Hgrad :
    final_in (match grad_field with
              | GradNested grad_msg =>
                  bind (types_guard (msg_torch_type grad_msg)) (fun var_type =>
                  bind (_build_var grad_msg var_type) (fun grad_obj =>
                  bind (handle_register grad_obj grad_msg true) (fun g => ret (Some (Some g)))))
              | GradNull => ret (Some None)
              | GradAbsent => ret None
              end)).
  { destruct grad_field as [ | | grad_msg ]; [ apply final_ret | apply final_ret | ].
    apply final_bind; [ apply final_types_guard | intros ty ].
    apply final_bind; [ apply (IH grad_msg) | intros grad_obj ].
    apply final_bind; [ apply final_handle_register | intros; apply final_ret ]. }
  split.
  - intros self. cbn [deser]. destruct (is_var_type self).
    2: { apply final_tensor_deser. }
    apply final_bind; [ apply Hdata | intros data ].
    apply final_bind; [ apply Hgrad | intros grad ].
    apply final_bind.
    + destruct data as [ d | ]; [ | apply final_raise ].
      destruct (decide (self = ParameterT)).
      * apply final_bind; [ apply final_msg_flag | intros; apply final_new ].
      * apply final_bind; [ apply final_msg_flag | intros ].
        apply final_bind; [ apply final_msg_flag | intros; apply final_new ].
    + intros var. destruct grad as [ g | ];
        [ apply final_setattr_grad | apply final_raise ].
  - intros torch_type. cbn [_build_var].
    apply final_bind; [ apply Hdata | intros data ].
    apply final_bind; [ apply Hgrad | intros grad ].
    apply final_bind.
    + destruct data as [ d | ]; [ | apply final_raise ].
      apply final_bind; [ apply final_msg_flag | intros ].
      apply final_bind; [ apply final_msg_flag | intros; apply final_new ].
    + intros var. destruct grad as [ g | ];
        [ apply final_setattr_grad | apply final_raise ].
Qed.

End TypeGuard.

Section TypeGuardClaims.
Context {K : Kernel} {E : External}.

Lemma bind_run {A B : Type} (m : M A) (k : A -> M B) (w : world) :
  bind m k w
  = match m w with
    | (Ok a, w1, evs1) =>
        match k a w1 with
        | (r, w2, evs2) => (r, w2, evs1 ++ evs2)
        end
    | (Raise e, w1, evs1) => (Raise e, w1, evs1)
    end.
Proof. reflexivity. Qed.

Lemma new_type (cls : torch_type) (arg : ctor_arg) (rg vol : bool) (w : world) :
  exists obj w' evs,
    new___new__ cls arg rg vol w = (Ok obj, w', evs) /\ tv_type obj = cls.
Proof.
  do 3 eexists. split; [ reflexivity | ].
  destruct arg as [ | xs | d ]; cbn; [ reflexivity | reflexivity | ].
  destruct (is_var_type cls); reflexivity.
Qed.

(** [_assemble_result_pointer] asks the guard about every name on its way
    down before it builds anything on its way up. *)
Lemma assemble_unknown (m : pointer_msg) (w : world) (n : string) :
  snd (checked_names (chain_names m)) = Some n ->
  _assemble_result_pointer m w
  = (Raise (TypeError (non_torch_msg n)), w,
     map TypesGuard (fst (checked_names (chain_names m)))).
Proof.
  revert m w n. fix IH 1. intros [reg torch_type var_data var_grad] w n.
  cbn [_assemble_result_pointer chain_names checked_names].
  intros Hn. rewrite bind_run.
  unfold except_KeyError, types_guard. rewrite bind_run. unfold emit, ret, raise.
  destruct (known_type torch_type) as [ cls | ] eqn:Hk; cbn [fst snd] in *.
  2: { injection Hn as ->. reflexivity. }
  destruct var_data as [ d | ]; [ | discriminate Hn ].
  rewrite bind_run, bind_run, (IH d w n Hn). reflexivity.
Qed.

Lemma assemble_known (m : pointer_msg) (w : world) :
  snd (checked_names (chain_names m)) = None ->
  exists p w' evs,
    _assemble_result_pointer m w = (Ok p, w', evs)
    /\ known_type (hd "" (chain_names m)) = Some (tv_type p).
Proof.
  revert m w. fix IH 1. intros [reg torch_type var_data var_grad] w.
  cbn [_assemble_result_pointer chain_names checked_names hd].
  intros Hn. rewrite bind_run.
  unfold except_KeyError, types_guard. rewrite bind_run.
  destruct (known_type torch_type) as [ cls | ] eqn:Hk; cbn [fst snd emit ret] in *;
    [ | discriminate ].
  assert (Hdata : exists data w1 evs1,
    match var_data with
    | Some d => bind (_assemble_result_pointer d) (fun p => ret (FromObj p))
    | None =>
        if is_var_type cls
        then bind (new___new__ FloatTensor FromZero false false)
               (fun t => ret (FromObj t))
        else ret FromZero
    end w = (Ok data, w1, evs1)).
  { destruct var_data as [ d | ].
    - destruct (IH d w Hn) as (p & w1 & evs1 & Hrun & _).
      unfold bind. rewrite Hrun. do 3 eexists. reflexivity.
    - destruct (is_var_type cls); do 3 eexists; reflexivity. }
  destruct Hdata as (data & w1 & evs1 & Hdata).
  rewrite bind_run, Hdata.
  destruct (new_type cls data false false w1) as (obj & w2 & evs2 & Hnew & Hty).
  rewrite bind_run, Hnew.
  do 3 eexists. split; [ reflexivity | ]. cbn. now rewrite Hty.
Qed.

(** ** Constructor calls are licensed by the guard *)

Lemma guarded_mono (evs : list event) :
  forall ok ok', (forall ty, In ty ok -> In ty ok') -> guarded ok evs -> guarded ok' evs.
Proof.
  induction evs as [ | ev evs IH ]; intros ok ok' Hincl Hg; [ exact I | ].
  destruct ev; cbn [guarded] in *; try exact (IH ok ok' Hincl Hg).
  - destruct (known_type name) as [ t | ]; [ | exact (IH ok ok' Hincl Hg) ].
    apply (IH (t :: ok)); [ | exact Hg ].
    intros ty [-> | Hin]; [ now left | right; now apply Hincl ].
  - destruct Hg as [Hin Hg]. split; [ now apply Hincl | exact (IH ok ok' Hincl Hg) ].
Qed.

Lemma guarded_app (e1 e2 : list event) :
  forall ok, guarded ok e1 -> guarded ok e2 -> guarded ok (e1 ++ e2).
Proof.
  induction e1 as [ | ev e1 IH ]; intros ok H1 H2; [ exact H2 | ].
  destruct ev; cbn [guarded app] in *; try (apply IH; assumption).
  - apply IH; [ exact H1 | ].
    destruct (known_type name); [ | exact H2 ].
    apply (guarded_mono e2 ok); [ intros ty Hin; now right | exact H2 ].
  - destruct H1 as [Hin H1]. split; [ exact Hin | now apply IH ].
Qed.

Lemma cg_ret {A : Type} (ok : list torch_type) (a : A) : constructs_guarded ok (ret a).
Proof. intros w. exact I. Qed.

Lemma cg_raise {A : Type} (ok : list torch_type) (e : exn) :
  constructs_guarded ok (@raise K A e).
Proof. intros w. exact I. Qed.

Lemma cg_lift {A : Type} (ok : list torch_type) (r : result A) :
  constructs_guarded ok (lift r).
Proof. intros w. exact I. Qed.

Lemma cg_bind {A B : Type} (ok : list torch_type) (m : M A) (k : A -> M B) :
  constructs_guarded ok m -> (forall a, constructs_guarded ok (k a)) ->
  constructs_guarded ok (bind m k).
Proof.
  intros Hm Hk w. rewrite bind_run. specialize (Hm w).
  destruct (m w) as [[[a | e] w1] evs1]; cbn [snd] in *; [ | exact Hm ].
  specialize (Hk a w1). destruct (k a w1) as [[r w2] evs2]; cbn [snd] in *.
  now apply guarded_app.
Qed.

Lemma cg_mono {A : Type} (ok ok' : list torch_type) (m : M A) :
  (forall ty, In ty ok -> In ty ok') ->
  constructs_guarded ok m -> constructs_guarded ok' m.
Proof. intros Hincl Hm w. apply (guarded_mono _ ok); [ exact Hincl | apply Hm ]. Qed.

Lemma cg_guard_bind {B : Type} (ok : list torch_type) (name : string)
  (k : torch_type -> M B) :
  (forall ty, known_type name = Some ty -> constructs_guarded (ty :: ok) (k ty)) ->
  constructs_guarded ok (bind (types_guard name) k).
Proof.
  intros Hk w. rewrite bind_run. unfold types_guard. rewrite bind_run.
  unfold emit, ret, raise.
  destruct (known_type name) as [ ty | ] eqn:Hn; cbn [fst snd app].
  - specialize (Hk ty eq_refl w). destruct (k ty w) as [[r w2] evs2]; cbn [snd] in *.
    cbn [guarded]. rewrite Hn. exact Hk.
  - exact I.
Qed.

Lemma cg_register_object (ok : list torch_type) (obj : tensorvar) (reg : registration) :
  constructs_guarded ok (register_object obj reg).
Proof. intros w. exact I. Qed.

Lemma cg_handle_register (ok : list torch_type) (obj : tensorvar) (obj_msg : msg)
  (tmp : bool) :
  constructs_guarded ok (handle_register obj obj_msg tmp).
Proof. intros w. exact I. Qed.

Lemma cg_setattr_grad (ok : list torch_type) (var : tensorvar) (g : option tensorvar) :
  constructs_guarded ok (setattr_grad var g).
Proof. intros w. exact I. Qed.

Lemma cg_new (ok : list torch_type) (cls : torch_type) (arg : ctor_arg) (rg vol : bool) :
  In cls ok -> constructs_guarded ok (new___new__ cls arg rg vol).
Proof. intros Hin w. cbn. split; [ exact Hin | exact I ]. Qed.

Lemma cg_msg_flag (ok : list torch_type) (obj_msg : msg) :
  constructs_guarded ok (msg_requires_grad obj_msg)
  /\ constructs_guarded ok (msg_volatile obj_msg).
Proof.
  destruct obj_msg as [? ? ? ? ? ? [[rg vol] | ]]; split; intros w; exact I.
Qed.

Lemma cg_tensor_deser (self : torch_type) (obj_msg : msg) :
  constructs_guarded [self] (tensor_deser self obj_msg).
Proof.
  destruct obj_msg as [tn [ | xs | data_msg ] grad_field i os p flags];
    cbn [tensor_deser].
  - apply cg_new. now left.
  - apply cg_bind; [ apply cg_lift | intros data; apply cg_new; now left ].
  - apply cg_raise.
Qed.

(** In [deser] and [_build_var] every constructor is called on the class
    the function was given or on a class the guard gave before. *)
Lemma cg_deser_build (obj_msg : msg) :
  (forall self, constructs_guarded [self] (deser self obj_msg))
  /\ (forall torch_type, constructs_guarded [torch_type] (_build_var obj_msg torch_type)).
Proof.
  revert obj_msg. fix IH 1.
  intros [tn data_field grad_field i os p flags].
  assert (Hdata : forall ok tmp,
    constructs_guarded ok
      (match data_field with
       | DataNested data_msg =>
           bind (types_guard (msg_torch_type data_msg)) (fun tensor_type =>
           bind (deser tensor_type data_msg) (fun data_obj =>
           bind (handle_register data_obj data_msg tmp) (fun d => ret (Some d))))
       | DataNumbers _ => raise (TypeError "the JSON object must be str")
       | DataAbsent => ret None
       end)).
  { intros ok tmp. destruct data_field as [ | xs | data_msg ];
      [ apply cg_ret | apply cg_raise | ].
    apply cg_guard_bind. intros ty _.
    apply cg_bind.
    - apply (cg_mono [ty]); [ intros t [-> | []]; now left | apply (IH data_msg) ].
    - intros data_obj. apply cg_bind; [ apply cg_handle_register | intros; apply cg_ret ]. }
  assert (Hgrad : forall ok,
    constructs_guarded ok
      (match grad_field with
       | GradNested grad_msg =>
           bind (types_guard (msg_torch_type grad_msg)) (fun var_type =>
           bind (_build_var grad_msg var_type) (fun grad_obj =>
           bind (handle_register grad_obj grad_msg true) (fun g => ret (Some (Some g)))))
       | GradNull => ret (Some None)
       | GradAbsent => ret None
       end)).
  { intros ok. destruct grad_field as [ | | grad_msg ]; [ apply cg_ret | apply cg_ret | ].
    apply cg_guard_bind. intros ty _.
    apply cg_bind.
    - apply (cg_mono [ty]); [ intros t [-> | []]; now left | apply (IH grad_msg) ].
    - intros grad_obj. apply cg_bind; [ apply cg_handle_register | intros; apply cg_ret ]. }
  split.
  - intros self. cbn [deser]. destruct (is_var_type self).
    2: { apply cg_tensor_deser. }
    apply cg_bind; [ apply Hdata | intros data ].
    apply cg_bind; [ apply Hgrad | intros grad ].
    apply cg_bind.
    + destruct data as [ d | ]; [ | apply cg_raise ].
      destruct (decide (self = ParameterT)).
      * apply cg_bind; [ apply cg_msg_flag | intros; apply cg_new; now left ].
      * apply cg_bind; [ apply cg_msg_flag | intros ].
        apply cg_bind; [ apply cg_msg_flag | intros; apply cg_new; now left ].
    + intros var. destruct grad as [ g | ];
        [ apply cg_setattr_grad | apply cg_raise ].
  - intros torch_type. cbn [_build_var].
    apply cg_bind; [ apply Hdata | intros data ].
    apply cg_bind; [ apply Hgrad | intros grad ].
    apply cg_bind.
    + destruct data as [ d | ]; [ | apply cg_raise ].
      apply cg_bind; [ apply cg_msg_flag | intros ].
      apply cg_bind; [ apply cg_msg_flag | intros; apply cg_new; now left ].
    + intros var. destruct grad as [ g | ];
        [ apply cg_setattr_grad | apply cg_raise ].
Qed.

(** ** The guard is asked about the names of the message *)

Lemma asked_app (e1 e2 : list event) : asked (e1 ++ e2) = asked e1 ++ asked e2.
Proof. unfold asked. apply flat_map_app. Qed.

Lemma asks_conv {A : Type} (m : M A) (n n' : list string) :
  asks m n -> n = n' -> asks m n'.
Proof. now intros H <-. Qed.

Lemma asks_ret {A : Type} (a : A) : asks (ret a) [].
Proof. intros w a' w' evs H. injection H as _ _ <-. reflexivity. Qed.

Lemma asks_raise {A : Type} (e : exn) (names : list string) : asks (@raise K A e) names.
Proof. intros w a' w' evs H. discriminate H. Qed.

Lemma asks_lift {A : Type} (r : result A) : asks (lift r) [].
Proof. intros w a' w' evs H. injection H as _ _ <-. reflexivity. Qed.

Lemma asks_bind {A B : Type} (m : M A) (k : A -> M B) (n1 n2 : list string) :
  asks m n1 -> (forall a, asks (k a) n2) -> asks (bind m k) (n1 ++ n2).
Proof.
  intros Hm Hk w b w' evs. rewrite bind_run.
  destruct (m w) as [[[a | e] w1] evs1] eqn:Hmw; [ | discriminate ].
  destruct (k a w1) as [[r w2] evs2] eqn:Hkw.
  intros H. injection H as -> -> <-.
  rewrite asked_app, (Hm _ _ _ _ Hmw), (Hk _ _ _ _ _ Hkw). reflexivity.
Qed.

Lemma asks_guard_bind {B : Type} (name : string) (k : torch_type -> M B)
  (f : torch_type -> list string) :
  (forall ty, known_type name = Some ty -> asks (k ty) (f ty)) ->
  asks (bind (types_guard name) k)
    (name :: match known_type name with
             | Some ty => f ty
             | None => []
             end).
Proof.
  intros Hk w b w' evs. rewrite bind_run. unfold types_guard. rewrite bind_run.
  unfold emit, ret, raise.
  destruct (known_type name) as [ ty | ] eqn:Hn; cbn [fst snd app]; [ | discriminate ].
  destruct (k ty w) as [[r w2] evs2] eqn:Hkw.
  intros H. injection H as -> -> <-.
  pose proof (Hk ty eq_refl _ _ _ _ Hkw) as <-. reflexivity.
Qed.

Lemma asks_register_object (obj : tensorvar) (reg : registration) :
  asks (register_object obj reg) [].
Proof. intros w a' w' evs H. injection H as _ _ <-. reflexivity. Qed.

Lemma asks_handle_register (obj : tensorvar) (obj_msg : msg) (tmp : bool) :
  asks (handle_register obj obj_msg tmp) [].
Proof. apply asks_register_object. Qed.

Lemma asks_setattr_grad (var : tensorvar) (g : option tensorvar) :
  asks (setattr_grad var g) [].
Proof. intros w a' w' evs H. injection H as _ _ <-. reflexivity. Qed.

Lemma asks_new (cls : torch_type) (arg : ctor_arg) (rg vol : bool) :
  asks (new___new__ cls arg rg vol) [].
Proof. intros w a' w' evs H. injection H as _ _ <-. reflexivity. Qed.

Lemma asks_msg_flag (obj_msg : msg) :
  asks (msg_requires_grad obj_msg) [] /\ asks (msg_volatile obj_msg) [].
Proof.
  destruct obj_msg as [? ? ? ? ? ? [[rg vol] | ]]; split;
    first [ apply asks_ret | apply asks_raise ].
Qed.

Lemma asks_tensor_deser (self : torch_type) (obj_msg : msg) :
  asks (tensor_deser self obj_msg) [].
Proof.
  destruct obj_msg as [tn [ | xs | data_msg ] grad_field i os p flags];
    cbn [tensor_deser].
  - apply asks_new.
  - apply (asks_bind _ _ [] []); [ apply asks_lift | intros; apply asks_new ].
  - apply asks_raise.
Qed.

(** When [deser] or [_build_var] returns, the guard was asked about the
    name of every nested message an object was built from. *)
Lemma asks_deser_build (obj_msg : msg) :
  (forall self, asks (deser self obj_msg) (names_deser self obj_msg))
  /\ (forall torch_type, asks (_build_var obj_msg torch_type) (names_var obj_msg)).
Proof.
  revert obj_msg. fix IH 1.
  intros [tn data_field grad_field i os p flags].
  set (names_data :=
         match data_field with
         | DataNested data_msg =>
             msg_torch_type data_msg ::
             match known_type (msg_torch_type data_msg) with
             | Some ty => if is_var_type ty then names_var data_msg else []
             | None => []
             end
         | _ => []
         end).
  set (names_grad :=
         match grad_field with
         | GradNested grad_msg => msg_torch_type grad_msg :: names_var grad_msg
         | _ => []
         end).
  assert (Hdata : forall tmp,
    asks (match data_field with
          | DataNested data_msg =>
              bind (types_guard (msg_torch_type data_msg)) (fun tensor_type =>
              bind (deser tensor_type data_msg) (fun data_obj =>
              bind (handle_register data_obj data_msg tmp) (fun d => ret (Some d))))
          | DataNumbers _ => raise (TypeError "the JSON object must be str")
          | DataAbsent => ret None
          end) names_data).
  { intros tmp. subst names_data. destruct data_field as [ | xs | data_msg ];
      [ apply asks_ret | apply asks_raise | ].
    apply (asks_guard_bind _ _ (fun ty => names_deser ty data_msg)).
    intros ty _. eapply asks_conv.
    - apply asks_bind; [ apply (IH data_msg) | intros data_obj ].
      apply asks_bind; [ apply asks_handle_register | intros; apply asks_ret ].
    - now rewrite !app_nil_r. }
  assert (Hgrad :
    asks (match grad_field with
          | GradNested grad_msg =>
              bind (types_guard (msg_torch_type grad_msg)) (fun var_type =>
              bind (_build_var grad_msg var_type) (fun grad_obj =>
              bind (handle_register grad_obj grad_msg true) (fun g => ret (Some (Some g)))))
          | GradNull => ret (Some None)
          | GradAbsent => ret None
          end) names_grad).
  { subst names_grad. destruct grad_field as [ | | grad_msg ];
      [ apply asks_ret | apply asks_ret | ].
    intros w b w' evs Hrun.
    pose proof (asks_guard_bind (msg_torch_type grad_msg)
                  (fun var_type =>
                     bind (_build_var grad_msg var_type) (fun grad_obj =>
                     bind (handle_register grad_obj grad_msg true)
                       (fun g => ret (Some (Some g)))))
                  (fun _ => names_var grad_msg)) as Hg.
    rewrite (Hg ltac:(intros ty _; eapply asks_conv;
                      [ apply asks_bind; [ apply (IH grad_msg) | intros grad_obj ];
                        apply asks_bind; [ apply asks_handle_register
                                         | intros; apply asks_ret ]
                      | now rewrite !app_nil_r ]) w b w' evs Hrun).
    destruct (known_type (msg_torch_type grad_msg)) eqn:Hn; [ reflexivity | ].
    exfalso. revert Hrun. rewrite bind_run. unfold types_guard. rewrite bind_run.
    unfold emit, raise. rewrite Hn. discriminate. }
  split.
  - intros self. unfold names_deser. cbn [deser names_var].
    fold names_data. fold names_grad.
    destruct (is_var_type self).
    2: { apply asks_tensor_deser. }
    eapply asks_conv.
    + apply asks_bind; [ apply Hdata | intros data ].
      apply asks_bind; [ apply Hgrad | intros grad ].
      apply (asks_bind _ _ [] []).
      * destruct data as [ d | ]; [ | apply asks_raise ].
        destruct (decide (self = ParameterT)).
        -- apply (asks_bind _ _ [] []); [ apply asks_msg_flag | intros; apply asks_new ].
        -- apply (asks_bind _ _ [] []); [ apply asks_msg_flag | intros ].
           apply (asks_bind _ _ [] []); [ apply asks_msg_flag | intros; apply asks_new ].
      * intros var. destruct grad as [ g | ];
          [ apply asks_setattr_grad | apply asks_raise ].
    + now rewrite !app_nil_r.
  - intros torch_type. cbn [_build_var names_var].
    fold names_data. fold names_grad.
    eapply asks_conv.
    + apply asks_bind; [ apply Hdata | intros data ].
      apply asks_bind; [ apply Hgrad | intros grad ].
      apply (asks_bind _ _ [] []).
      * destruct data as [ d | ]; [ | apply asks_raise ].
        apply (asks_bind _ _ [] []); [ apply asks_msg_flag | intros ].
        apply (asks_bind _ _ [] []); [ apply asks_msg_flag | intros; apply asks_new ].
      * intros var. destruct grad as [ g | ];
          [ apply asks_setattr_grad | apply asks_raise ].
    + now rewrite !app_nil_r.
Qed.

Lemma asked_known (evs : list event) :
  Forall (fun ev => rejected ev = false) evs ->
  Forall (fun n => is_Some (known_type n)) (asked evs).
Proof.
  induction 1 as [ | ev evs Hev _ IH ]; [ constructor | ].
  destruct ev; unfold asked; cbn [flat_map app]; try exact IH.
  constructor; [ | exact IH ].
  unfold rejected in Hev. destruct (known_type name); [ now eexists | discriminate ].
Qed.

(** A run that returns was not rejected: all the names asked are known. *)
Lemma returned_known {A : Type} (m : M A) (names : list string) (w w' : world)
  (a : A) (evs : list event) :
  final_in m -> asks m names -> m w = (Ok a, w', evs) ->
  asked evs = names /\ Forall (fun n => is_Some (known_type n)) names.
Proof.
  intros Hf Ha Hrun. pose proof (Ha _ _ _ _ Hrun) as Hn. split; [ exact Hn | ].
  specialize (Hf w). rewrite Hrun in Hf. cbn [fst snd] in Hf.
  destruct Hf as [Hall | (pre & name & e & _ & _ & _ & Hr & _)]; [ | discriminate Hr ].
  rewrite <- Hn. now apply asked_known.
Qed.

Lemma unknown_name_fails {A : Type} (m : M A) (names : list string) (w : world)
  (n : string) :
  final_in m -> asks m names -> In n names -> known_type n = None ->
  exists e, fst (fst (m w)) = Raise e.
Proof.
  intros Hf Ha Hin Hn.
  destruct (m w) as [[[a | e] w'] evs] eqn:Hrun; [ | now exists e ].
  destruct (returned_known m names w w' a evs Hf Ha Hrun) as [_ Hall].
  rewrite List.Forall_forall in Hall. destruct (Hall n Hin) as [ty Hty]. congruence.
Qed.

(** C4 (as amended): every type name that comes with a message goes through
    the guard before a constructor is called with it, and an unknown name
    makes the call fail with the untrusted-type error at the guard, with
    nothing done afterwards.  [_assemble_result_pointer] has then built no
    object at all: the world is unchanged and the events are the guard
    calls alone; with all names known it returns an object of the type of
    the outermost name.  In [deser] and [_build_var] of a variable every
    constructor is called on the class the function was given or on a class
    the guard gave before for a name it was asked about; a rejection is
    final; a run that returns has asked the guard about the name of every
    nested message it built an object from, all of them known; and with an
    unknown name among them the call fails.  What was built from names
    validated earlier in the same message stays. *)
Theorem type_guard_before_construction (m : pointer_msg) (self : torch_type)
  (obj_msg : msg) (w : world) :
  (forall n, snd (checked_names (chain_names m)) = Some n ->
     _assemble_result_pointer m w
     = (Raise (TypeError (non_torch_msg n)), w,
        map TypesGuard (fst (checked_names (chain_names m))))
     /\ UntrustedTypeError n (TypeError (non_torch_msg n)))
  /\ (snd (checked_names (chain_names m)) = None ->
      exists p w' evs,
        _assemble_result_pointer m w = (Ok p, w', evs)
        /\ known_type (hd "" (chain_names m)) = Some (tv_type p))
  /\ (guarded [self] (snd (deser self obj_msg w))
      /\ rejection_is_final (fst (fst (deser self obj_msg w))) (snd (deser self obj_msg w))
      /\ (forall var w' evs,
            deser self obj_msg w = (Ok var, w', evs) ->
            asked evs = names_deser self obj_msg
            /\ Forall (fun n => is_Some (known_type n)) (names_deser self obj_msg))
      /\ (forall n, In n (names_deser self obj_msg) -> known_type n = None ->
          exists e, fst (fst (deser self obj_msg w)) = Raise e))
  /\ (forall torch_type,
        guarded [torch_type] (snd (_build_var obj_msg torch_type w))
        /\ rejection_is_final (fst (fst (_build_var obj_msg torch_type w)))
             (snd (_build_var obj_msg torch_type w))
        /\ (forall var w' evs,
              _build_var obj_msg torch_type w = (Ok var, w', evs) ->
              asked evs = names_var obj_msg
              /\ Forall (fun n => is_Some (known_type n)) (names_var obj_msg))
        /\ (forall n, In n (names_var obj_msg) -> known_type n = None ->
            exists e, fst (fst (_build_var obj_msg torch_type w)) = Raise e)).
Proof.
  split; [ | split; [ | split ] ].
  - intros n Hn. split; [ now apply assemble_unknown | now right ].
  - apply assemble_known.
  - split; [ apply cg_deser_build | ]. split; [ apply final_deser_build | ].
    split.
    + intros var w' evs Hrun.
      apply (returned_known (deser self obj_msg) _ w w' var evs);
        [ apply final_deser_build | apply asks_deser_build | exact Hrun ].
    + intros n Hin Hn.
      apply (unknown_name_fails (deser self obj_msg) (names_deser self obj_msg) w n);
        [ apply final_deser_build | apply asks_deser_build | exact Hin | exact Hn ].
  - intros torch_type.
    split; [ apply cg_deser_build | ]. split; [ apply final_deser_build | ].
    split.
    + intros var w' evs Hrun.
      apply (returned_known (_build_var obj_msg torch_type) _ w w' var evs);
        [ apply final_deser_build | apply asks_deser_build | exact Hrun ].
    + intros n Hin Hn.
      apply (unknown_name_fails (_build_var obj_msg torch_type) (names_var obj_msg) w n);
        [ apply final_deser_build | apply asks_deser_build | exact Hin | exact Hn ].
Qed.

End TypeGuardClaims.

(** C4, the claim as stated fails: the data of this message is built and
    registered (under id 5) before the guard rejects the type name of the
    grad. *)
Lemma data_is_built_before_grad_is_rejected :
  let run := deser (E := QuietWorker) VariableT forged_grad_message w0 in
  fst (fst run) = Raise (KeyError "os.system")
  /\ existsb is_construct (snd run) = true
  /\ is_Some (objects (snd (fst run)) !! 5).
Proof. split; [ reflexivity | split; [ reflexivity | ] ]. eexists. reflexivity. Qed.

(** * Deserialization of a variable *)

Section Deserialization.
Context {K : Kernel} {E : External}.

Lemma runs_bind {A B : Type} (m : M A) (k : A -> M B) (w w1 w2 : world)
  (a : A) (b : B) (evs1 evs2 : list event) :
  runs m w a w1 evs1 -> runs (k a) w1 b w2 evs2 ->
  runs (bind m k) w b w2 (evs1 ++ evs2).
Proof. unfold runs, bind. intros -> ->. reflexivity. Qed.

Lemma runs_ret {A : Type} (a : A) (w : world) : runs (ret a) w a w [].
Proof. reflexivity. Qed.

Lemma runs_lift {A : Type} (r : result A) (a : A) (w : world) :
  r = Ok a -> runs (lift r) w a w [].
Proof. intros ->. reflexivity. Qed.

Lemma runs_types_guard (name : string) (ty : torch_type) (w : world) :
  known_type name = Some ty -> runs (types_guard name) w ty w [TypesGuard name].
Proof. intros H. unfold runs, types_guard, bind, emit, ret. now rewrite H. Qed.

Lemma runs_register (obj : tensorvar) (i : option Z) (os : option (list Z))
  (p : option bool) (tmp : bool) (w : world) :
  runs (register_object obj (kw i os p tmp)) w
    (set_registration obj (default (next_id w) i) (default [local_id w] os)
       (default false p))
    (with_entry w (default (next_id w) i) (default [local_id w] os)
       (default false p) tmp)
    [Register (default (next_id w) i) (default [local_id w] os) (default false p) tmp].
Proof. destruct i, os, p; reflexivity. Qed.

Lemma runs_new (cls : torch_type) (arg : ctor_arg) (rg vol : bool) (w : world) :
  runs (new___new__ cls arg rg vol) w
    (set_class_fixed_precision
       (set_registration (old___new__ cls arg rg vol) (next_id w) [local_id w] false))
    (with_entry w (next_id w) [local_id w] false false)
    [Construct cls; Register (next_id w) [local_id w] false false].
Proof. reflexivity. Qed.

Lemma runs_handle_register (obj : tensorvar) (obj_msg : msg) (tmp : bool) (w : world) :
  runs (handle_register obj obj_msg tmp) w
    (set_registration obj (msg_id obj_msg) (msg_owners obj_msg) (msg_is_pointer obj_msg))
    (with_entry w (msg_id obj_msg) (msg_owners obj_msg) (msg_is_pointer obj_msg) tmp)
    [Register (msg_id obj_msg) (msg_owners obj_msg) (msg_is_pointer obj_msg) tmp].
Proof. reflexivity. Qed.

Lemma runs_setattr_grad (var : tensorvar) (g : option tensorvar) (w : world) :
  runs (setattr_grad var g) w (set_old_grad var g) w [SetGrad (obj_id var)].
Proof. reflexivity. Qed.

Ltac step lem := eapply runs_bind; [ lem | cbv beta ].

(** A tensor message with its data gives a tensor of the validated type,
    registered at its construction. *)
Lemma runs_tensor_deser (ty : torch_type) (name : string) (xs xs' : list num)
  (i : Z) (os : list Z) (p : bool) (w : world) :
  is_var_type ty = false -> tensor_contents_guard xs = Ok xs' ->
  runs (deser ty (tensor_msg name xs i os p)) w
    (set_class_fixed_precision
       (set_registration (fresh_obj ty (of_list ty xs')) (next_id w) [local_id w] false))
    (with_entry w (next_id w) [local_id w] false false)
    [Construct ty; Register (next_id w) [local_id w] false false].
Proof.
  intros Hty Hxs. unfold tensor_msg. cbn [deser]. rewrite Hty. cbn [tensor_deser].
  change [Construct ty; Register (next_id w) [local_id w] false false]
    with ([] ++ [Construct ty; Register (next_id w) [local_id w] false false]).
  step ltac:(apply runs_lift, Hxs). apply runs_new.
Qed.


Lemma runs_events {A : Type} (m : M A) (w w' : world) (a : A)
  (evs evs' : list event) :
  runs m w a w' evs -> evs = evs' -> runs m w a w' evs'.
Proof. now intros H <-. Qed.

Lemma runs_conv {A : Type} (m : M A) (w w1 w2 : world) (a : A)
  (evs evs' : list event) :
  runs m w a w1 evs -> w1 = w2 -> evs = evs' -> runs m w a w2 evs'.
Proof. now intros H <- <-. Qed.

Lemma with_entry_next (w : world) (i : Z) (os : list Z) (p tmp : bool) :
  local_id (with_entry w i os p tmp) = local_id w
  /\ next_id w <= next_id (with_entry w i os p tmp)
  /\ i < next_id (with_entry w i os p tmp).
Proof. cbn. lia. Qed.

(** [_build_var] on the message of a variable without a grad of its own:
    data first, then the variable, then its (absent) grad. *)
Lemma runs_build_var (ty : torch_type) (gn gdn : string) (gdty : torch_type)
  (gxs gxs' : list num) (gdi gi : Z) (gdos gos : list Z) (gdp gp grg gvol : bool)
  (w : world) :
  known_type gdn = Some gdty -> is_var_type gdty = false ->
  tensor_contents_guard gxs = Ok gxs' ->
  let w1 := with_entry (with_entry w (next_id w) [local_id w] false false)
              gdi gdos gdp true in
  exists g,
    runs (_build_var (var_msg gn (tensor_msg gdn gxs gdi gdos gdp) GradNull
                        gi gos gp grg gvol) ty) w g
      (with_entry w1 (next_id w1) [local_id w] false false)
      [TypesGuard gdn; Construct gdty; Register (next_id w) [local_id w] false false;
       Register gdi gdos gdp true;
       Construct ty; Register (next_id w1) [local_id w] false false;
       SetGrad (Some (next_id w1))]
    /\ obj_id g = Some (next_id w1).
Proof.
  intros Hk Hty Hxs w1. eexists. split.
  - unfold var_msg. cbn [_build_var].
    eapply runs_events.
    + step ltac:(step ltac:(apply (runs_types_guard _ _ _ Hk));
                 step ltac:(apply (runs_tensor_deser _ _ _ _ _ _ _ _ Hty Hxs));
                 step ltac:(apply runs_handle_register);
                 apply runs_ret).
      step ltac:(apply runs_ret).
      step ltac:(cbn [msg_volatile msg_requires_grad];
                 step ltac:(apply runs_ret); step ltac:(apply runs_ret);
                 apply runs_new).
      apply runs_setattr_grad.
    + reflexivity.
  - reflexivity.
Qed.


(** The whole run of [deser] on the message of a variable with data and a
    grad: the worlds it goes through and everything it does, in order. *)
Lemma runs_deser_variable (self gty dty gdty : torch_type) (tn dn gn gdn : string)
  (xs xs' gxs gxs' : list num) (di gdi gi i : Z) (dos gdos gos os : list Z)
  (dp gdp gp p rg vol grg gvol : bool) (w : world) :
  is_var_type self = true ->
  known_type dn = Some dty -> is_var_type dty = false ->
  tensor_contents_guard xs = Ok xs' ->
  known_type gn = Some gty ->
  known_type gdn = Some gdty -> is_var_type gdty = false ->
  tensor_contents_guard gxs = Ok gxs' ->
  let l := [local_id w] in
  let wd := with_entry (with_entry w (next_id w) l false false) di dos dp false in
  let wg1 := with_entry (with_entry wd (next_id wd) l false false) gdi gdos gdp true in
  let wg := with_entry (with_entry wg1 (next_id wg1) l false false) gi gos gp true in
  exists var d g,
    runs (deser self
            (var_msg tn (tensor_msg dn xs di dos dp)
               (GradNested (var_msg gn (tensor_msg gdn gxs gdi gdos gdp) GradNull
                              gi gos gp grg gvol))
               i os p rg vol)) w var
      (with_entry wg (next_id wg) l false false)
      [TypesGuard dn; Construct dty; Register (next_id w) l false false;
       Register di dos dp false;
       TypesGuard gn; TypesGuard gdn; Construct gdty;
       Register (next_id wd) l false false; Register gdi gdos gdp true;
       Construct gty; Register (next_id wg1) l false false;
       SetGrad (Some (next_id wg1)); Register gi gos gp true;
       Construct self; Register (next_id wg) l false false;
       SetGrad (Some (next_id wg))]
    /\ obj_id var = Some (next_id wg)
    /\ old_data var = Some d /\ obj_id d = Some di
    /\ old_grad var = Some g /\ obj_id g = Some gi.
Proof.
  intros Hs Hdn Hdty Hxs Hgn Hgdn Hgdty Hgxs l wd wg1 wg.
  destruct (runs_build_var gty gn gdn gdty gxs gxs' gdi gi gdos gos gdp gp grg gvol
              wd Hgdn Hgdty Hgxs) as (g0 & Hg & Hgid).
  assert (Hself : self = VariableT \/ self = ParameterT)
    by (destruct self; try (vm_compute in Hs; discriminate Hs); auto).
  destruct Hself as [-> | ->]; do 3 eexists; (split;
  [ unfold var_msg at 1; cbn [deser]; rewrite Hs;
    eapply runs_conv;
    [ step ltac:(step ltac:(apply (runs_types_guard _ _ _ Hdn));
                 step ltac:(apply (runs_tensor_deser _ _ _ _ _ _ _ _ Hdty Hxs));
                 step ltac:(apply runs_handle_register);
                 apply runs_ret);
      step ltac:(step ltac:(apply (runs_types_guard _ _ _ Hgn));
                 step ltac:(apply Hg);
                 step ltac:(apply runs_handle_register);
                 apply runs_ret);
      step ltac:(cbn [msg_volatile msg_requires_grad decide decide_rel];
                 first [ step ltac:(apply runs_ret); step ltac:(apply runs_ret);
                         apply runs_new
                       | step ltac:(apply runs_ret); apply runs_new ]);
      apply runs_setattr_grad
    | reflexivity
    | reflexivity ]
  | cbn; repeat split; reflexivity ]).
Qed.



End Deserialization.
(** * Sending and getting back *)

Section RoundTrip.
Context {K : Kernel} {E : External}.

Ltac step lem := eapply runs_bind; [ lem | cbv beta ].

Lemma runs_send_obj (obj : tensorvar) (worker i : Z) (sp : bool) (w : world) :
  obj_id obj = Some i ->
  runs (send_obj obj worker sp true) w tt (with_sent w worker i obj) [SendObj worker i].
Proof. intros H. unfold runs, send_obj, read_id. rewrite H. reflexivity. Qed.

Lemma runs_request_obj (i recipient : Z) (x : tensorvar) (w : world) :
  remote w !! (recipient, i) = Some x ->
  runs (request_obj i recipient) w x w [RequestObj recipient i].
Proof.
  intros H. unfold runs, request_obj, bind, emit, get_world. cbn. rewrite H.
  reflexivity.
Qed.

Lemma runs_read_id (tv : tensorvar) (i : Z) (w : world) :
  obj_id tv = Some i -> runs (read_id tv) w i w [].
Proof. intros H. unfold runs, read_id. now rewrite H. Qed.

Lemma runs_read_is_pointer (tv : tensorvar) (b : bool) (w : world) :
  is_pointer tv = Some b -> runs (read_is_pointer tv) w b w [].
Proof. intros H. unfold runs, read_is_pointer. now rewrite H. Qed.

(** The getter of [data]: it returns the data tensor, registered if it was
    not, with the storage it had; the variable keeps its identity when it
    has owners already, and nothing is sent or requested. *)
Lemma runs_new_data (self d : tensorvar) (w : world) :
  old_data self = Some d ->
  (data_registered self = false -> is_Some (owners self) -> is_Some (is_pointer self)) ->
  exists d' self' w' evs,
    runs (new_data self) w (d', self') w' evs
    /\ storage d' = storage d /\ tv_type d' = tv_type d
    /\ old_data self' = Some d' /\ data_registered self' = true
    /\ tv_type self' = tv_type self /\ old_grad self' = old_grad self
    /\ (is_Some (owners self) ->
        obj_id self' = obj_id self /\ owners self' = owners self
        /\ is_pointer self' = is_pointer self)
    /\ remote w' = remote w /\ local_id w' = local_id w.
Proof.
  intros Hd Hp. unfold runs, new_data. rewrite Hd.
  destruct (data_registered self) eqn:Hr.
  - exists d, self, w, []. repeat split; auto.
  - destruct (owners self) as [os|] eqn:Ho.
    + destruct (Hp eq_refl (mk_is_Some _ _ eq_refl)) as [p Hip].
      do 4 eexists. split.
      { unfold bind at 1. cbn [ret]. unfold bind at 1, read_is_pointer.
        rewrite Hip. cbn [ret]. unfold bind. cbn. reflexivity. }
      cbn. rewrite Ho. repeat split; auto.
    + do 4 eexists. split.
      { unfold bind. cbn. reflexivity. }
      cbn. repeat split; auto;
        match goal with H : is_Some None |- _ => destruct H; discriminate end.
Qed.

Lemma _var_to_pointer_eq (var : tensorvar) :
  _var_to_pointer var
  = bind (match old_grad var with
          | Some g => bind (_var_to_pointer g) (fun g' => ret (Some g'))
          | None => ret None
          end)
      (fun g =>
         bind (new_data (set_old_grad var g))
           (fun dv =>
              bind (new___new__ (tv_type (fst dv)) FromZero false false)
                (fun z =>
                   ret (set_is_pointer
                          (set_old_data (snd dv) (old_set_ (fst dv) (storage z))
                             (data_registered (snd dv))) true)))).
Proof. destruct var; reflexivity. Qed.

(** [_var_to_pointer] on a ready variable returns: the variable is a
    pointer afterwards, of the same type and, when it had owners, of the
    same id and owners; its data is registered; nothing is sent. *)
Lemma runs_var_to_pointer :
  forall var : tensorvar, var_ready var -> forall w : world,
  exists r w' evs d0,
    runs (_var_to_pointer var) w r w' evs
    /\ remote w' = remote w /\ local_id w' = local_id w
    /\ tv_type r = tv_type var /\ is_pointer r = Some true
    /\ (is_Some (owners var) -> obj_id r = obj_id var /\ owners r = owners var)
    /\ old_data r = Some d0 /\ storage d0 = empty (tv_type d0)
    /\ data_registered r = true.
Proof.
  fix IH 1. intros var.
  destruct var as [ty oi oo op fp pr st od og dr rg vol].
  intros Hready w. cbn [var_ready old_data data_registered owners is_pointer old_grad] in Hready.
  destruct Hready as ([d Hd] & Hp & Hg). cbn in Hd. subst od.
  assert (Hgrad : exists g' w1 evs1,
            runs (match og with
                  | Some g => bind (_var_to_pointer g) (fun g' => ret (Some g'))
                  | None => ret None
                  end) w g' w1 evs1
            /\ remote w1 = remote w /\ local_id w1 = local_id w).
  { destruct og as [g|].
    - destruct (IH g Hg w) as (r & w' & evs & d0 & Hr & Hrem & Hloc & _).
      exists (Some r), w', (evs ++ []). split; [ | auto ].
      step ltac:(exact Hr). apply runs_ret.
    - exists None, w, []. split; [ apply runs_ret | auto ]. }
  destruct Hgrad as (g' & w1 & evs1 & Hrun1 & Hrem1 & Hloc1).
  destruct (runs_new_data
              (set_old_grad (TensorVar ty oi oo op fp pr st (Some d) og dr rg vol) g')
              d w1 eq_refl Hp)
    as (d' & self' & w2 & evs2 & Hrun2 & Hst & Hty & Hod & Hdr & Htys & Hog & Hkeep
        & Hrem2 & Hloc2).
  do 4 eexists. split.
  { rewrite _var_to_pointer_eq. cbn [old_grad].
    step ltac:(exact Hrun1). step ltac:(exact Hrun2). cbn [fst snd].
    step ltac:(apply runs_new). apply runs_ret. }
  cbn in Hkeep |- *. rewrite Hrem2, Hloc2, Hrem1, Hloc1, Htys.
  repeat split; auto;
    match goal with
    | H : is_Some _ |- _ => destruct (Hkeep H) as (Ha & Hb & _); congruence
    end.
Qed.

(** [send_] of a locally owned value to one worker: the worker holds the
    value as it was, and what stays is a pointer to it under the same id. *)
Lemma runs_send_ (v : tensorvar) (i dest : Z) (w : world) :
  locally_owned v i w ->
  exists p w1 evs1,
    runs (send_ v (Worker dest) false) w p w1 evs1
    /\ hd_error evs1 = Some (SendObj dest i)
    /\ obj_id p = Some i /\ owners p = Some [dest] /\ is_pointer p = Some true
    /\ tv_type p = tv_type v
    /\ remote w1 !! (dest, i) = Some v /\ local_id w1 = local_id w
    /\ (if is_var_type (tv_type v)
        then exists d0, old_data p = Some d0 /\ data_registered p = true
                        /\ storage d0 = empty (tv_type d0)
        else storage p = empty (tv_type v) /\ old_data p = old_data v).
Proof.
  intros (Hid & Hown & Hptr & Hready).
  unfold send_. cbn [_check_workers mapM negb].
  destruct (is_var_type (tv_type v)) eqn:Hvar.
  - set (self1 := set_registration v i [dest] true).
    assert (Hr1 : var_ready self1).
    { specialize (Hready eq_refl). destruct v; cbn in *.
      destruct Hready as (Hd & _ & Hg). repeat split; auto. }
    destruct (runs_var_to_pointer self1 Hr1
                (with_entry (with_sent w dest i v) i [dest] true false))
      as (r & w' & evs & d0 & Hrun & Hrem & Hloc & Hty & Hp & Hkeep & Hd0 & Hz & Hdr).
    destruct (Hkeep (mk_is_Some _ _ eq_refl)) as (Hi & Ho).
    do 3 eexists. split.
    { step ltac:(step ltac:(apply (runs_send_obj _ _ _ _ _ Hid));
                 step ltac:(apply runs_ret); apply runs_ret).
      step ltac:(apply runs_ret). step ltac:(apply (runs_read_id _ _ _ Hid)).
      step ltac:(apply (runs_register _ (Some i) (Some [dest]) (Some true) false)).
      exact Hrun. }
    split; [ reflexivity | ].
    rewrite Hrem, Hloc, Hi, Ho, Hp, Hty. cbn.
    repeat split; auto. { apply lookup_insert_eq. } now exists d0.
  - do 3 eexists. split.
    { step ltac:(step ltac:(apply (runs_send_obj _ _ _ _ _ Hid));
                 step ltac:(apply runs_ret); apply runs_ret).
      step ltac:(step ltac:(apply runs_new); apply runs_ret).
      step ltac:(apply (runs_read_id _ _ _ Hid)).
      step ltac:(apply (runs_register _ (Some i) (Some [dest]) (Some true) false)).
      apply runs_ret. }
    split; [ reflexivity | ].
    cbn. repeat split; auto. apply lookup_insert_eq.
Qed.

Lemma runs_new_data_registered (self d : tensorvar) (w : world) :
  old_data self = Some d -> data_registered self = true ->
  runs (new_data self) w (d, self) w [].
Proof. intros Hd Hr. unfold runs, new_data. now rewrite Hd, Hr. Qed.

(** [get_] on a pointer to a value that one other worker holds: the value
    is requested from that worker and its contents are put in the local
    object, which is registered to the local worker under its id. *)
Lemma runs_get_ (p x : tensorvar) (i dest : Z) (w : world) :
  obj_id p = Some i -> owners p = Some [dest] -> dest <> local_id w ->
  remote w !! (dest, i) = Some x -> obj_id x = Some i -> tv_type x = tv_type p ->
  (is_var_type (tv_type p) = true ->
   (exists d0, old_data p = Some d0 /\ data_registered p = true)
   /\ is_Some (old_data x)) ->
  exists v2 w2 evs2,
    runs (get_ p) w v2 w2 evs2
    /\ hd_error evs2 = Some (RequestObj dest i)
    /\ contents v2 = contents x /\ owners v2 = Some [local_id w]
    /\ obj_id v2 = Some i /\ is_pointer v2 = Some false
    /\ tv_type v2 = tv_type p.
Proof.
  intros Hid Hown Hdest Hrem Hxid Hty Hvar.
  assert (Hnotin : bool_decide (local_id w ∈ [dest]) = false).
  { apply bool_decide_eq_false. rewrite list_elem_of_singleton. congruence. }
  unfold get_, getattr_owners. rewrite Hown.
  set (x' := set_registration x i [local_id w] false).
  destruct (is_var_type (tv_type p)) eqn:Hv.
  - destruct (Hvar eq_refl) as ((d0 & Hd0 & Hdr) & (d & Hd)).
    destruct (runs_new_data x' d (with_entry w i [local_id w] false false))
      as (d' & x'' & w2 & evs2 & Hrun2 & Hst & _ & Hod & _ & _ & Hog & _ & _ & Hloc2);
      [ exact Hd | intros _ _; now eexists | ].
    cbn in Hloc2.
    destruct (old_grad x'') as [g|] eqn:Hg.
    + do 3 eexists. split.
      { step ltac:(apply runs_ret). cbn [fst snd length bool_decide negb].
        step ltac:(apply runs_ret). rewrite Hnotin.
        step ltac:(apply (runs_read_id _ _ _ Hid)).
        step ltac:(apply (runs_request_obj _ _ _ _ Hrem)).
        step ltac:(apply (runs_read_id _ _ _ Hxid)).
        step ltac:(apply (runs_register _ (Some i) None None false)).
        rewrite Hv; cbn [negb default].
        step ltac:(step ltac:(apply (runs_new_data_registered _ _ _ Hd0 Hdr));
                   step ltac:(exact Hrun2);
                   unfold new_grad; cbn [fst snd]; rewrite Hg; apply runs_setattr_grad).
        step ltac:(apply (runs_read_id _ i); exact Hid).
        apply (runs_register _ (Some i) (Some [local_id w]) None false). }
      split; [ reflexivity | ].
      unfold contents. cbn. rewrite Hv, Hty, Hv, Hd. auto.
    + do 3 eexists. split.
      { step ltac:(apply runs_ret). cbn [fst snd length bool_decide negb].
        step ltac:(apply runs_ret). rewrite Hnotin.
        step ltac:(apply (runs_read_id _ _ _ Hid)).
        step ltac:(apply (runs_request_obj _ _ _ _ Hrem)).
        step ltac:(apply (runs_read_id _ _ _ Hxid)).
        step ltac:(apply (runs_register _ (Some i) None None false)).
        rewrite Hv; cbn [negb default].
        step ltac:(step ltac:(apply (runs_new_data_registered _ _ _ Hd0 Hdr));
                   step ltac:(exact Hrun2);
                   unfold new_grad; cbn [fst snd]; rewrite Hg; apply runs_ret).
        step ltac:(apply (runs_read_id _ i); exact Hid).
        apply (runs_register _ (Some i) (Some [local_id w]) None false). }
      split; [ reflexivity | ].
      unfold contents. cbn. rewrite Hv, Hty, Hv, Hd. auto.
  - do 3 eexists. split.
    { step ltac:(apply runs_ret). cbn [fst snd length bool_decide negb].
      step ltac:(apply runs_ret). rewrite Hnotin.
      step ltac:(apply (runs_read_id _ _ _ Hid)).
      step ltac:(apply (runs_request_obj _ _ _ _ Hrem)).
      step ltac:(apply (runs_read_id _ _ _ Hxid)).
      step ltac:(apply (runs_register _ (Some i) None None false)).
      rewrite Hv; cbn [negb default].
      step ltac:(apply runs_ret).
      step ltac:(apply (runs_read_id _ i); exact Hid).
      apply (runs_register _ (Some i) (Some [local_id w]) None false). }
    split; [ reflexivity | ].
    unfold contents, type_to, cast. cbn. rewrite Hv, Hty, Hv.
    rewrite decide_True by reflexivity.
    destruct (old_data x), (old_data p); auto.
Qed.

(** C8 (amended).  A value held by the local worker, sent to one other
    worker and got back: [send_] leaves a pointer to that worker, and [get_]
    on this pointer returns a value whose contents are those before the
    send, held by the local worker alone under the id it had. *)
Theorem get_send_round_trip (v : tensorvar) (i dest : Z) (w : world) :
  locally_owned v i w -> dest <> local_id w ->
  exists p w1 evs1 v2 w2 evs2,
    runs (send_ v (Worker dest) false) w p w1 evs1
    /\ hd_error evs1 = Some (SendObj dest i)
    /\ owners p = Some [dest] /\ is_pointer p = Some true
    /\ runs (get_ p) w1 v2 w2 evs2
    /\ hd_error evs2 = Some (RequestObj dest i)
    /\ contents v2 = contents v
    /\ owners v2 = Some [local_id w] /\ is_pointer v2 = Some false
    /\ obj_id v2 = Some i /\ tv_type v2 = tv_type v.
Proof.
  intros Hv Hdest.
  destruct (runs_send_ v i dest w Hv)
    as (p & w1 & evs1 & Hsend & Hev1 & Hid & Hown & Hptr & Hty & Hrem & Hloc & Hshape).
  destruct Hv as (Hvid & _ & _ & Hready).
  assert (Hvar : is_var_type (tv_type p) = true ->
                 (exists d0, old_data p = Some d0 /\ data_registered p = true)
                 /\ is_Some (old_data v)).
  { rewrite Hty. intros Hvar. rewrite Hvar in Hshape.
    destruct Hshape as (d0 & Hd0 & Hdr & _). split; [ now exists d0 | ].
    destruct v; cbn in *. now destruct (Hready Hvar) as (Hd & _). }
  assert (Hdest1 : dest <> local_id w1) by congruence.
  destruct (runs_get_ p v i dest w1 Hid Hown Hdest1 Hrem Hvid (eq_sym Hty) Hvar)
    as (v2 & w2 & evs2 & Hget & Hev2 & Hc & Ho & Hi & Hp & Ht).
  exists p, w1, evs1, v2, w2, evs2.
  rewrite Hloc in Ho. rewrite Hty in Ht.
  repeat split; auto.
Qed.

End RoundTrip.

(** * Fixed precision, commands and local calls: further properties *)

Section CallProperties.
Context {K : Kernel} {E : External}.

(** X1.  [fixed_prec_mul] reports operands that are not both fixed-precision
    with an [AttributeError]: the mixed-operand message exactly when one of
    the two has the attribute and the other has not, the other message
    exactly when neither has it. *)
Theorem fixed_prec_mul_attribute_errors (self : tensorvar) (other : pyval) (b : bool) :
  (fixed_prec_mul self other b = Raise (AttributeError mixed_msg)
   <-> hasattr_fixed_precision (PTensorVar self) = negb (hasattr_fixed_precision other))
  /\ (fixed_prec_mul self other b = Raise (AttributeError nonfixed_msg)
      <-> hasattr_fixed_precision (PTensorVar self) = false
          /\ hasattr_fixed_precision other = false).
Proof.
  unfold fixed_prec_mul, mixed_or_nonfixed.
  destruct (hasattr_fixed_precision (PTensorVar self)) eqn:Hs,
           (hasattr_fixed_precision other) eqn:Ho; cbn [andb orb negb].
  - assert (Hne : forall m, m = mixed_msg \/ m = nonfixed_msg ->
      rbind (getattr_precision (PTensorVar self))
        (fun p1 => rbind (getattr_precision other)
           (fun p2 => if p1 + p2 >? 17 then Raise OverflowError
                      else rbind (storage_of other)
                             (fun o => if b
                                then Ok (set_fixed (fresh_obj LongTensor
                                       (old_div_num (old_mul (storage self) o) (pow10 p2))) p1)
                                else Ok (set_fixed (fresh_obj LongTensor
                                       (old_div_num (old_mul (storage self) o) (pow10 p1))) p2))))
      <> Raise (AttributeError m)).
    { intros m Hm. cbn [getattr_precision].
      destruct (precision self) as [p1|]; cbn [rbind];
        [ | destruct Hm as [-> | ->]; intros H; vm_compute in H; discriminate H ].
      destruct other as [ | | | | tv | | ]; cbn [rbind getattr_precision];
        try (destruct Hm as [-> | ->]; intros H; vm_compute in H; discriminate H).
      destruct (precision tv) as [p2|]; cbn [rbind];
        [ | destruct Hm as [-> | ->]; intros H; vm_compute in H; discriminate H ].
      destruct (p1 + p2 >? 17); [ discriminate | ].
      cbn [storage_of rbind]. destruct b; discriminate. }
    split; split; intros H; try discriminate H; try (destruct H; discriminate);
      exfalso; revert H; apply Hne; auto.
  - split; split; intros H; try reflexivity; try discriminate H;
      destruct H; discriminate.
  - split; split; intros H; try reflexivity; try discriminate H;
      destruct H; discriminate.
  - split; split; intros H; try discriminate H; auto.
Qed.

(** X2.  Only the multiplication checks the precisions: [fixed_prec_add],
    [fixed_prec_sub], [fixed_prec_div] and [fixed_prec_trudiv] never raise
    [OverflowError], whatever the operands are. *)
Theorem fixed_prec_add_sub_div_never_overflow (self : tensorvar) (other : pyval) :
  fixed_prec_add self other <> Raise OverflowError
  /\ fixed_prec_sub self other <> Raise OverflowError
  /\ fixed_prec_div self other <> Raise OverflowError
  /\ fixed_prec_trudiv self other <> Raise OverflowError.
Proof.
  unfold fixed_prec_trudiv, fixed_prec_add, fixed_prec_sub, fixed_prec_div,
    mixed_or_nonfixed.
  repeat split;
    (destruct (hasattr_fixed_precision (PTensorVar self)); cbn [andb];
     [ cbn [getattr_precision]; destruct (precision self) as [p1|]; cbn [rbind];
       [ destruct other as [ | | | | tv | | ]; cbn [rbind getattr_precision];
         try discriminate;
         destruct (precision tv) as [p2|]; cbn [rbind storage_of]; try discriminate;
         repeat match goal with
           | |- context [if ?c then _ else _] => destruct c
           end; discriminate
       | discriminate ]
     | repeat match goal with
         | |- context [if ?c then _ else _] => destruct c
         end; discriminate ]).
Qed.


(** X4.  Any other method of a fixed-precision tensor falls through to the
    torch function, called on [self] and the arguments; its result is
    returned as it is: unlike [_execute_local_call], this path registers
    nothing. *)
Theorem fixed_precision_other_methods_fall_through (self : tensorvar)
  (_method : partial) (args : list pyval) (kwargs : list (string * pyval)) (w : world) :
  ~ In (func_name _method) fixed_prec_names ->
  _execute_fixed_precision_call self _method args kwargs w
  = (torch_func (func_name _method) (PTensorVar self :: args) kwargs, w,
     [TorchCall (func_name _method)]).
Proof.
  intros Hin. unfold _execute_fixed_precision_call.
  destruct (String.eqb_spec (func_name _method) "mul") as [e|_];
    [ exfalso; apply Hin; rewrite e; cbn; auto | ].
  destruct (String.eqb_spec (func_name _method) "div") as [e|_];
    [ exfalso; apply Hin; rewrite e; cbn; auto | ].
  destruct (String.eqb_spec (func_name _method) "add") as [e|_];
    [ exfalso; apply Hin; rewrite e; cbn; auto | ].
  destruct (String.eqb_spec (func_name _method) "sub") as [e|_];
    [ exfalso; apply Hin; rewrite e; cbn; auto | ].
  destruct (String.eqb_spec (func_name _method) "trudiv") as [e|_];
    [ exfalso; apply Hin; rewrite e; cbn; auto 6 | ].
  unfold call_func, bind, emit, lift.
  destruct (torch_func (func_name _method) (PTensorVar self :: args) kwargs); reflexivity.
Qed.

(** X5.  [_execute_local_call] registers what the torch function returns
    when it is a tensor or a [Variable]: to the local worker, not as a
    pointer, under a new id.  A [Parameter] is not in [tensorvar_types] and
    is returned unregistered, as is every value that is not a tensor. *)
Theorem local_call_registers_result (self : pyval) (_method : partial)
  (args : list pyval) (kwargs : list (string * pyval)) (function_not_method : bool)
  (w : world) (result : pyval) :
  torch_func (func_name _method) (if function_not_method then args else self :: args)
    kwargs = Ok result ->
  let run := _execute_local_call self _method args kwargs function_not_method w in
  match result with
  | PTensorVar r =>
      if decide (tv_type r = ParameterT)
      then run = (Ok result, w, [TorchCall (func_name _method)])
      else run = (Ok (PTensorVar (set_registration r (next_id w) [local_id w] false)),
                  with_entry w (next_id w) [local_id w] false false,
                  [TorchCall (func_name _method);
                   Register (next_id w) [local_id w] false false])
  | _ => run = (Ok result, w, [TorchCall (func_name _method)])
  end.
Proof.
  intros Hf run. subst run. unfold _execute_local_call, call_func.
  assert (Hrun : forall xs, torch_func (func_name _method) xs kwargs = Ok result ->
            bind (emit (TorchCall (func_name _method)))
              (fun _ => lift (torch_func (func_name _method) xs kwargs)) w
            = (Ok result, w, [TorchCall (func_name _method)])).
  { intros xs Hxs. unfold bind, emit, lift. now rewrite Hxs. }
  assert (Hcall : (if function_not_method
                   then bind (emit (TorchCall (func_name _method)))
                          (fun _ => lift (torch_func (func_name _method) args kwargs))
                   else bind (emit (TorchCall (func_name _method)))
                          (fun _ => lift (torch_func (func_name _method) (self :: args) kwargs))) w
                  = (Ok result, w, [TorchCall (func_name _method)])).
  { destruct function_not_method; apply Hrun, Hf. }
  destruct result as [ | | | | r | | ];
    try (unfold bind at 1; rewrite Hcall; reflexivity).
  destruct (decide (tv_type r = ParameterT)) as [Hp | Hp];
    unfold bind at 1; rewrite Hcall.
  - rewrite Hp. reflexivity.
  - rewrite bool_decide_eq_true_2; [ reflexivity | ].
    destruct (tv_type r); try congruence; unfold tensorvar_types, tensor_types;
      cbn; repeat (first [ apply list_elem_of_here | apply list_elem_of_further ]).
Qed.

(** X6.  [_compile_command]: with [has_self] the first argument becomes the
    [self] of the command and the call fails with [IndexError] exactly when
    there is no argument; the tensors and variables collected are the same
    with and without [has_self], those of all arguments and keyword
    arguments. *)
Theorem compile_command_shape (partial_func : partial) :
  (_compile_command partial_func true = Raise (IndexError "tuple index out of range")
   <-> p_args partial_func = [])
  /\ (forall self args, p_args partial_func = self :: args ->
      exists c, _compile_command partial_func true = Ok (c, operands partial_func)
                /\ has_self c = true /\ cmd_self c = Some (encode self)
                /\ cmd_args c = map encode args
                /\ cmd_command c = func_name partial_func)
  /\ exists c, _compile_command partial_func false = Ok (c, operands partial_func)
               /\ has_self c = false /\ cmd_self c = None
               /\ cmd_args c = map encode (p_args partial_func)
               /\ cmd_command c = func_name partial_func.
Proof.
  unfold _compile_command, operands. split; [ | split ].
  - destruct (p_args partial_func); split; intros H; try reflexivity; discriminate H.
  - intros self args Hp. rewrite Hp. eexists.
    split; [ cbn [flat_map]; rewrite <- app_assoc; reflexivity | ].
    repeat split.
  - eexists. split; [ reflexivity | repeat split ].
Qed.

End CallProperties.

(** * Answers of a worker: further properties *)

Section ResponseProperties.
Context {K : Kernel} {E : External}.

Lemma handle_plain_response (r : response) (w : world) :
  plain_response r = true -> handle_response r w = (Ok (payload r), w, []).
Proof. destruct r; intros H; try discriminate H; reflexivity. Qed.

(** X7.  The answers of the one owner, when none of them is a registered
    object: the call returns the value of a single answer as it is, the
    tuple of the values of several answers, and fails with [IndexError] on an
    empty list of answers ([pointers[0]]); the command has been sent by then,
    and nothing is constructed or registered. *)
Theorem remote_call_plain_responses (_method : partial) (has_self : bool)
  (command : command) (tensorvars : list tensorvar) (worker : Z)
  (rs : responses) (w : world) :
  _compile_command _method has_self = Ok (command, tensorvars) ->
  Forall tracked tensorvars ->
  has_remote tensorvars = true ->
  owners_of tensorvars = [worker] ->
  send_torch_command worker command = Ok rs ->
  let answers := match rs with OneResponse r => [r] | ResponseList l => l end in
  forallb plain_response answers = true ->
  _execute_remote_call _method has_self w
  = (match pointers_result (map payload answers) with
     | Ok pointers => Ok (pointers, true, false)
     | Raise e => Raise e
     end, w, [SendCommand worker command]).
Proof.
  intros Hc Ht Hr Ho Hs answers Hplain. unfold _execute_remote_call.
  unfold bind at 1. unfold lift. rewrite Hc. cbn [fst snd].
  unfold bind at 1.
  rewrite (mapM_pure read_is_pointer _ tracked _ _
             (fun a Ha w' => tracked_is_pointer a w' Ha) Ht).
  unfold bind at 1.
  rewrite (mapM_pure read_owners _ tracked _ _
             (fun a Ha w' => tracked_owners a w' Ha) Ht).
  rewrite flags_has_remote, Hr. fold (owners_of tensorvars). rewrite Ho.
  cbn [length andb negb app]. rewrite bool_decide_eq_false_2 by (cbn; lia).
  cbn [negb]. unfold bind at 1. unfold emit. unfold bind at 1.
  rewrite Hs. fold answers. unfold bind at 1.
  rewrite (mapM_pure handle_response payload (fun r => plain_response r = true)
             answers w (fun r Hr' w' => handle_plain_response r w' Hr')).
  2: { rewrite forallb_forall in Hplain. apply List.Forall_forall. exact Hplain. }
  destruct (map payload answers) as [ | p [ | p' ps ] ]; reflexivity.
Qed.

Ltac step lem := eapply runs_bind; [ lem | cbv beta ].

Lemma runs_guard_known (name : string) (ty : torch_type) (e : exn) (w : world) :
  known_type name = Some ty ->
  runs (except_KeyError (types_guard name) e) w ty w [TypesGuard name].
Proof.
  intros H. unfold runs, except_KeyError, types_guard, bind, emit, ret.
  now rewrite H.
Qed.

(** X8.  The pointer [_assemble_result_pointer] makes of an answer without
    data: of the type the guard gives for the name, empty, and registered
    under the id, owners and pointer flag of the answer's registration.  For
    a variable type an empty [FloatTensor] is constructed as its data.  The
    grad of the answer is not looked at. *)
Theorem assemble_result_pointer_without_data (reg : registration) (name : string)
  (ty : torch_type) (var_grad : option pointer_msg) (i : Z) (w : world) :
  known_type name = Some ty -> reg_id reg = Some i ->
  exists p w' evs,
    runs (_assemble_result_pointer (PointerMsg reg name None var_grad)) w p w' evs
    /\ tv_type p = ty
    /\ obj_id p = Some i
    /\ owners p = Some (default [local_id w] (reg_owners reg))
    /\ is_pointer p = Some (default false (reg_is_pointer reg))
    /\ contents p = (if is_var_type ty then empty FloatTensor else empty ty)
    /\ filter is_construct evs
       = (if is_var_type ty then [Construct FloatTensor; Construct ty]
          else [Construct ty])
    /\ hd_error evs = Some (TypesGuard name)
    /\ (forall var_grad',
          _assemble_result_pointer (PointerMsg reg name None var_grad') w
          = _assemble_result_pointer (PointerMsg reg name None var_grad) w).
Proof.
  intros Hk Hi. destruct reg as [ri ro rp rt]. cbn in Hi. subst ri.
  cbn [_assemble_result_pointer].
  destruct (is_var_type ty) eqn:Hv.
  - do 3 eexists. split.
    { step ltac:(apply (runs_guard_known _ _ _ _ Hk)). rewrite Hv.
      step ltac:(step ltac:(apply runs_new); apply runs_ret).
      step ltac:(apply runs_new).
      apply (runs_register _ (Some i) ro rp rt). }
    unfold contents. cbn. rewrite ?Hv. cbn. rewrite ?Hv.
    repeat split; reflexivity.
  - do 3 eexists. split.
    { step ltac:(apply (runs_guard_known _ _ _ _ Hk)). rewrite Hv.
      step ltac:(apply runs_ret).
      step ltac:(apply runs_new).
      apply (runs_register _ (Some i) ro rp rt). }
    unfold contents. cbn. rewrite ?Hv. cbn. rewrite ?Hv.
    repeat split; reflexivity.
Qed.

End ResponseProperties.

(** * Moving objects: further properties *)

Section TransferProperties.
Context {K : Kernel}.

Ltac step lem := eapply runs_bind; [ lem | cbv beta ].

Lemma tensor_is_not_var (ty : torch_type) :
  is_tensor_type ty = true -> is_var_type ty = false.
Proof. destruct ty; intros H; try reflexivity; discriminate H. Qed.

Lemma bookkeeping_new_data (self : tensorvar) : emits bookkeeping (new_data self).
Proof.
  unfold new_data. destruct (old_data self) as [d|]; [ | apply emits_raise ].
  destruct (data_registered self); [ apply emits_ret | ].
  apply emits_bind.
  - destruct (owners self); [ apply emits_ret | apply bookkeeping_register_object ].
  - intros self1. apply emits_bind.
    + unfold read_is_pointer. destruct (is_pointer self1);
        [ apply emits_ret | apply emits_raise ].
    + intros p. apply emits_bind;
        [ apply bookkeeping_register_object | intros d'; apply emits_ret ].
Qed.

Lemma bookkeeping_run {A : Type} (m : M A) (w w' : world) (a : A)
  (evs : list event) :
  emits bookkeeping m -> runs m w a w' evs -> Forall bookkeeping evs.
Proof. intros Hm Hrun. specialize (Hm w). unfold runs in Hrun. now rewrite Hrun in Hm. Qed.

(** [send_obj] with [delete_local=False]: the worker holds the object, the
    local registry is as before. *)
Lemma runs_send_copy (obj : tensorvar) (worker i : Z) (sp : bool) (w : world) :
  obj_id obj = Some i ->
  exists w',
    runs (send_obj obj worker sp false) w tt w' [SendObj worker i]
    /\ local_id w' = local_id w /\ objects w' = objects w
    /\ next_id w' = next_id w
    /\ remote w' = <[(worker, i) := obj]> (remote w).
Proof.
  intros H. eexists. split.
  - unfold runs, send_obj, read_id. rewrite H. reflexivity.
  - repeat split.
Qed.

Lemma runs_send_copies (v : tensorvar) (i : Z) (sp : bool) (ws : list Z) :
  obj_id v = Some i ->
  forall w : world,
  exists us w',
    runs (mapM (fun worker => send_obj v worker sp false) ws) w us w'
      (map (fun d => SendObj d i) ws)
    /\ local_id w' = local_id w /\ objects w' = objects w
    /\ next_id w' = next_id w
    /\ (forall k, remote w !! k = Some v -> remote w' !! k = Some v)
    /\ (forall d, In d ws -> remote w' !! (d, i) = Some v).
Proof.
  intros Hid. induction ws as [ | d ws IH ]; intros w.
  - exists [], w. split; [ apply runs_ret | ]. repeat split; auto.
    intros d [].
  - destruct (runs_send_copy v d i sp w Hid) as (w1 & Hrun1 & Hl1 & Ho1 & Hn1 & Hr1).
    destruct (IH w1) as (us & w' & Hrun & Hl & Ho & Hn & Hkeep & Hall).
    exists (tt :: us), w'. split.
    { cbn [mapM map]. eapply runs_events.
      - step ltac:(exact Hrun1). step ltac:(exact Hrun). apply runs_ret.
      - cbn. now rewrite app_nil_r. }
    split; [ congruence | ]. split; [ congruence | ]. split; [ congruence | ].
    assert (Hd : remote w1 !! (d, i) = Some v)
      by (rewrite Hr1; apply lookup_insert_eq).
    split.
    + intros k Hk. apply Hkeep. rewrite Hr1.
      destruct (decide (k = (d, i))) as [-> | Hne]; [ apply lookup_insert_eq | ].
      rewrite lookup_insert_ne by congruence. exact Hk.
    + intros d' [<- | Hin]; [ apply Hkeep, Hd | apply Hall, Hin ].
Qed.

(** X9.  [send_] with [send_pointer=True] transmits a copy to every worker
    of the list, in order, and returns the object as it is: its contents,
    id and owners and the local registry are untouched. *)
Theorem send_pointer_keeps_the_object (v : tensorvar) (i : Z) (ws : list Z)
  (w : world) :
  obj_id v = Some i ->
  exists w',
    runs (send_ v (WorkerList ws) true) w v w' (map (fun d => SendObj d i) ws)
    /\ objects w' = objects w /\ next_id w' = next_id w
    /\ local_id w' = local_id w
    /\ (forall d, In d ws -> remote w' !! (d, i) = Some v).
Proof.
  intros Hid.
  destruct (runs_send_copies v i true ws Hid w)
    as (us & w' & Hrun & Hl & Ho & Hn & _ & Hall).
  exists w'. split; [ | auto ].
  unfold send_. cbn [_check_workers negb]. eapply runs_events.
  - step ltac:(exact Hrun). apply runs_ret.
  - now rewrite app_nil_r.
Qed.


Lemma get_not_single (p : tensorvar) (os : list Z) (w : world) :
  owners p = Some os -> length os <> 1%nat ->
  get_ p w = (Raise (NotImplementedError single_owner_msg), w, []).
Proof.
  intros Ho Hlen. unfold get_, getattr_owners. rewrite Ho.
  unfold bind at 1. cbn [ret fst snd].
  rewrite (bool_decide_eq_false_2 _ Hlen). reflexivity.
Qed.

(** X11.  [get_] works on a single owner only: with no owner or several it
    fails with [NotImplementedError], and nothing is requested from any
    worker. *)
Theorem get_needs_a_single_owner (p : tensorvar) (os : list Z) (w : world) :
  owners p = Some os -> length os <> 1%nat ->
  get_ p w = (Raise MultiOwnerNotSupportedError, w, []).
Proof. apply get_not_single. Qed.

Lemma get_local (p : tensorvar) (w : world) :
  owners p = Some [local_id w] -> get_ p w = (Ok p, w, []).
Proof.
  intros Ho. unfold get_, getattr_owners. rewrite Ho.
  unfold bind at 1. cbn [ret fst snd length].
  rewrite bool_decide_eq_true_2 by reflexivity. cbn [negb].
  unfold bind at 1, get_world.
  rewrite bool_decide_eq_true_2 by apply list_elem_of_here. reflexivity.
Qed.

(** X12.  [get_] on an object whose single owner is the local worker
    returns the object itself: nothing is requested, registered or
    changed. *)
Theorem get_of_local_value_is_identity (p : tensorvar) (w : world) :
  owners p = Some [local_id w] -> get_ p w = (Ok p, w, []).
Proof. apply get_local. Qed.

(** X18.  [module_get_] on a module whose parameters the local worker
    holds asks no worker and leaves every parameter as it is. *)
Theorem module_get_of_local_parameters (parameters : list tensorvar) (w : world) :
  Forall (fun p => owners p = Some [local_id w]) parameters ->
  module_get_ parameters w = (Ok parameters, w, []).
Proof.
  unfold module_get_. induction 1 as [ | p ps Hp _ IH ]; [ reflexivity | ].
  cbn [mapM]. unfold bind at 1. rewrite (get_local p w Hp).
  unfold bind at 1. rewrite IH. reflexivity.
Qed.

Lemma runs_send_all (v : tensorvar) (i : Z) (sp : bool) (ws : list Z) :
  obj_id v = Some i ->
  forall w : world,
  exists us w',
    runs (mapM (fun worker => send_obj v worker sp true) ws) w us w'
      (map (fun d => SendObj d i) ws)
    /\ local_id w' = local_id w.
Proof.
  intros Hid. induction ws as [ | d ws IH ]; intros w.
  - exists [], w. split; [ apply runs_ret | reflexivity ].
  - destruct (IH (with_sent w d i v)) as (us & w' & Hrun & Hl).
    exists (tt :: us), w'. split; [ | exact Hl ].
    cbn [mapM map]. eapply runs_events.
    + step ltac:(apply (runs_send_obj _ _ _ _ _ Hid)).
      step ltac:(exact Hrun). apply runs_ret.
    + cbn. now rewrite app_nil_r.
Qed.

(** [_var_to_pointer] on a ready variable, with what it leaves of the
    chain of grads. *)
Lemma var_to_pointer_chain :
  forall var : tensorvar, var_ready var -> forall w : world,
  exists r w' evs d0,
    runs (_var_to_pointer var) w r w' evs
    /\ remote w' = remote w
    /\ tv_type r = tv_type var /\ is_pointer r = Some true
    /\ (is_Some (owners var) -> obj_id r = obj_id var /\ owners r = owners var)
    /\ old_data r = Some d0 /\ storage d0 = empty (tv_type d0)
    /\ chain_pointer r
    /\ grad_depth r = grad_depth var
    /\ Forall bookkeeping evs.
Proof.
  fix IH 1. intros var.
  destruct var as [ty oi oo op fp pr st od og dr rg vol].
  intros Hready w.
  cbn [var_ready old_data data_registered owners is_pointer old_grad] in Hready.
  destruct Hready as ([d Hd] & Hp & Hg). cbn in Hd. subst od.
  assert (Hgrad : exists g' w1 evs1,
            runs (match og with
                  | Some g => bind (_var_to_pointer g) (fun g' => ret (Some g'))
                  | None => ret None
                  end) w g' w1 evs1
            /\ remote w1 = remote w
            /\ Forall bookkeeping evs1
            /\ match g' with Some g => chain_pointer g | None => True end
            /\ match g', og with
               | Some g, Some g0 => grad_depth g = grad_depth g0
               | None, None => True
               | _, _ => False
               end).
  { destruct og as [g|].
    - destruct (IH g Hg w)
        as (r & w' & evs & d0 & Hr & Hrem & _ & _ & _ & _ & _ & Hc & Hdep & Hev).
      exists (Some r), w', (evs ++ []). split.
      { step ltac:(exact Hr). apply runs_ret. }
      rewrite app_nil_r. auto.
    - exists None, w, []. split; [ apply runs_ret | auto ]. }
  destruct Hgrad as (g' & w1 & evs1 & Hrun1 & Hrem1 & Hev1 & Hchain & Hdepth).
  destruct (runs_new_data
              (set_old_grad (TensorVar ty oi oo op fp pr st (Some d) og dr rg vol) g')
              d w1 eq_refl Hp)
    as (d' & self' & w2 & evs2 & Hrun2 & Hst & Hty & Hod & Hdr & Htys & Hog & Hkeep
        & Hrem2 & Hloc2).
  pose proof (bookkeeping_run _ _ _ _ _ (bookkeeping_new_data _) Hrun2) as Hev2.
  cbn [old_grad set_old_grad] in Hog.
  cbn [owners set_old_grad obj_id is_pointer] in Hkeep.
  do 4 eexists. split.
  { rewrite _var_to_pointer_eq. cbn [old_grad].
    step ltac:(exact Hrun1). step ltac:(exact Hrun2). cbn [fst snd].
    step ltac:(apply runs_new). apply runs_ret. }
  split; [ cbn; congruence | ].
  split; [ cbn; exact Htys | ].
  split; [ reflexivity | ].
  split.
  { intros Ho. destruct (Hkeep Ho) as (Ha & Hb & _). cbn. split; congruence. }
  split; [ reflexivity | ].
  split; [ reflexivity | ].
  split.
  { cbn [chain_pointer is_pointer set_is_pointer old_data set_old_data old_grad].
    split; [ reflexivity | ]. split.
    - eexists. split; reflexivity.
    - rewrite Hog. exact Hchain. }
  split.
  { cbn [grad_depth old_grad set_is_pointer set_old_data]. rewrite Hog.
    destruct g' as [g1|], og as [g0|]; try contradiction; cbn; congruence. }
  apply Forall_app. split; [ exact Hev1 | ].
  apply Forall_app. split; [ exact Hev2 | ].
  repeat constructor.
Qed.

(** [send_] to any list of workers: what stays is an empty pointer owned by
    the workers of the list. *)
Lemma runs_send_list (v : tensorvar) (i : Z) (ws : list Z) (w : world) :
  locally_owned v i w ->
  exists p w1 evs,
    runs (send_ v (WorkerList ws) false) w p w1
      (map (fun d => SendObj d i) ws ++ evs)
    /\ Forall bookkeeping evs
    /\ obj_id p = Some i /\ owners p = Some ws /\ is_pointer p = Some true
    /\ (exists ty, contents p = empty ty).
Proof.
  intros (Hid & Hown & Hptr & Hready).
  destruct (runs_send_all v i false ws Hid w) as (us & w0 & Hrun0 & Hl0).
  unfold send_. cbn [_check_workers negb].
  destruct (is_var_type (tv_type v)) eqn:Hvar.
  - set (self1 := set_registration v i ws true).
    assert (Hr1 : var_ready self1).
    { specialize (Hready eq_refl). destruct v; cbn in *.
      destruct Hready as (Hd & _ & Hg). repeat split; auto. }
    destruct (var_to_pointer_chain self1 Hr1 (with_entry w0 i ws true false))
      as (r & w' & evs & d0 & Hrun & Hrem & Hty & Hp & Hkeep & Hd0 & Hz & _ & _ & Hev).
    destruct (Hkeep (mk_is_Some _ _ eq_refl)) as (Hi & Ho).
    exists r, w', (Register i ws true false :: evs). split.
    { eapply runs_events.
      - step ltac:(exact Hrun0). step ltac:(apply runs_ret).
        step ltac:(apply (runs_read_id _ _ _ Hid)).
        step ltac:(apply (runs_register _ (Some i) (Some ws) (Some true) false)).
        exact Hrun.
      - reflexivity. }
    split; [ constructor; [ exact I | exact Hev ] | ].
    rewrite Hi, Ho, Hp. repeat split.
    exists (tv_type d0). unfold contents. rewrite Hd0, Hty. cbn.
    rewrite Hvar. exact Hz.
  - do 3 eexists. split.
    { eapply runs_events.
      - step ltac:(exact Hrun0).
        step ltac:(step ltac:(apply runs_new); apply runs_ret).
        step ltac:(apply (runs_read_id _ _ _ Hid)).
        step ltac:(apply (runs_register _ (Some i) (Some ws) (Some true) false)).
        apply runs_ret.
      - reflexivity. }
    split; [ repeat constructor | ].
    repeat split. exists (tv_type v). unfold contents. cbn. rewrite Hvar.
    now destruct (old_data v).
Qed.

Lemma bookkeeping_no_send (evs : list event) :
  Forall bookkeeping evs -> List.filter is_send_obj evs = [].
Proof.
  induction 1 as [ | ev evs' Hb Hev' IHe ]; [ reflexivity | ].
  destruct ev; try contradiction; exact IHe.
Qed.

(** X13.  A value sent to no worker or to several workers cannot be got
    back: [send_] empties the local storage and leaves a pointer owned by
    the whole list, and [get_] on this pointer fails with
    [NotImplementedError] without asking any worker. *)
Theorem send_to_several_workers_cannot_be_got (v : tensorvar) (i : Z)
  (ws : list Z) (w : world) :
  locally_owned v i w -> length ws <> 1%nat ->
  exists p w1 evs1,
    runs (send_ v (WorkerList ws) false) w p w1 evs1
    /\ List.filter is_send_obj evs1 = map (fun d => SendObj d i) ws
    /\ owners p = Some ws
    /\ (exists ty, contents p = empty ty)
    /\ get_ p w1 = (Raise MultiOwnerNotSupportedError, w1, []).
Proof.
  intros Hv Hlen.
  destruct (runs_send_list v i ws w Hv)
    as (p & w1 & evs & Hrun & Hev & Hid & Ho & Hp & Hc).
  exists p, w1, (map (fun d => SendObj d i) ws ++ evs).
  split; [ exact Hrun | ]. split.
  { rewrite List.filter_app.
    assert (H1 : forall l : list Z,
              List.filter is_send_obj (map (fun d => SendObj d i) l)
              = map (fun d => SendObj d i) l).
    { induction l as [ | a l IHl ]; [ reflexivity | cbn; now rewrite IHl ]. }
    rewrite H1, (bookkeeping_no_send evs Hev). apply app_nil_r. }
  split; [ exact Ho | ]. split; [ exact Hc | ].
  apply (get_not_single p ws w1 Ho Hlen).
Qed.

(** X14.  The representation of a tensor follows its owners: the kernel's
    own for a tensor the local worker holds, the line with the locations
    once it was sent to another worker, and the kernel's own again after
    [get_]. *)
Theorem repr_follows_the_owners (v : tensorvar) (i dest : Z) (w : world) :
  locally_owned v i w -> is_tensor_type (tv_type v) = true ->
  dest <> local_id w ->
  new___repr__ v w = (Ok OldRepr, w, [])
  /\ exists p w1 evs1 v2 w2 evs2,
       runs (send_ v (Worker dest) false) w p w1 evs1
       /\ new___repr__ p w1
          = (Ok (Locations (type_name (tv_type v)) [dest]), w1, [])
       /\ runs (get_ p) w1 v2 w2 evs2
       /\ new___repr__ v2 w2 = (Ok OldRepr, w2, []).
Proof.
  intros Hv Hten Hdest.
  assert (Hvar : is_var_type (tv_type v) = false) by now apply tensor_is_not_var.
  destruct Hv as (Hid & Hown & Hptr & Hready).
  assert (Hnotin : bool_decide (local_id w ∈ [dest]) = false).
  { apply bool_decide_eq_false. rewrite list_elem_of_singleton. congruence. }
  split.
  { unfold new___repr__. rewrite Hown. unfold bind, get_world.
    rewrite bool_decide_eq_true_2 by apply list_elem_of_here. reflexivity. }
  do 6 eexists. split.
  { unfold send_. cbn [_check_workers mapM negb]. rewrite Hvar.
    step ltac:(step ltac:(apply (runs_send_obj _ _ _ _ _ Hid));
               step ltac:(apply runs_ret); apply runs_ret).
    step ltac:(step ltac:(apply runs_new); apply runs_ret).
    step ltac:(apply (runs_read_id _ _ _ Hid)).
    step ltac:(apply (runs_register _ (Some i) (Some [dest]) (Some true) false)).
    apply runs_ret. }
  split.
  { unfold new___repr__. cbn [owners set_registration]. unfold bind, get_world.
    cbn [local_id with_entry with_sent from_option id]. rewrite Hnotin. reflexivity. }
  split.
  { unfold get_, getattr_owners. cbn [owners set_registration].
    step ltac:(apply runs_ret). cbn [fst snd length bool_decide negb].
    step ltac:(apply runs_ret). cbn [local_id with_entry with_sent from_option id].
    rewrite Hnotin.
    step ltac:(apply (runs_read_id _ i); reflexivity).
    step ltac:(apply (runs_request_obj _ _ v); cbn; apply lookup_insert_eq).
    step ltac:(apply (runs_read_id _ _ _ Hid)).
    step ltac:(apply (runs_register _ (Some i) None None false)).
    cbn [tv_type set_registration set_class_fixed_precision old_set_].
    rewrite Hvar. cbn [negb].
    step ltac:(apply runs_ret).
    step ltac:(apply (runs_read_id _ i); reflexivity).
    apply (runs_register _ (Some i) (Some [local_id w]) None false). }
  unfold new___repr__. cbn [owners set_registration]. unfold bind, get_world.
  cbn [local_id with_entry with_sent from_option id].
  rewrite bool_decide_eq_true_2 by apply list_elem_of_here. reflexivity.
Qed.


(** X16.  The [owners] property of a variable without owners registers the
    variable to the local worker, once; a tensor without owners has no such
    attribute. *)
Theorem owners_property_registers_once (self : tensorvar) (w : world) :
  owners self = None ->
  if is_var_type (tv_type self)
  then exists self',
         getattr_owners self w
         = (Ok ([local_id w], self'),
            with_entry w (next_id w) [local_id w] false false,
            [Register (next_id w) [local_id w] false false])
         /\ obj_id self' = Some (next_id w)
         /\ forall w', getattr_owners self' w' = (Ok ([local_id w], self'), w', [])
  else getattr_owners self w = (Raise (no_attribute "owners"), w, []).
Proof.
  intros Ho. unfold getattr_owners. rewrite Ho.
  destruct (is_var_type (tv_type self)) eqn:Hv; [ | reflexivity ].
  eexists. split; [ reflexivity | ]. split; [ reflexivity | ].
  intros w'. reflexivity.
Qed.

(** X17.  [_var_to_pointer] goes down the whole chain of grads: the
    variable and every grad below it come out as pointers with an empty
    data tensor, the chain is as long as before, and nothing is sent to or
    requested from a worker. *)
Theorem var_to_pointer_empties_the_chain (var : tensorvar) (w : world) :
  var_ready var ->
  exists r w' evs,
    runs (_var_to_pointer var) w r w' evs
    /\ chain_pointer r
    /\ grad_depth r = grad_depth var
    /\ Forall bookkeeping evs
    /\ remote w' = remote w.
Proof.
  intros Hready.
  destruct (var_to_pointer_chain var Hready w)
    as (r & w' & evs & d0 & Hrun & Hrem & _ & _ & _ & _ & _ & Hc & Hdep & Hev).
  exists r, w', evs. auto.
Qed.

End TransferProperties.

(** * Serialization of tensors: further properties *)

Section SerdeProperties.
Context {K : Kernel} {E : External}.

Lemma known_type_name (ty : torch_type) : known_type (type_name ty) = Some ty.
Proof. destruct ty; reflexivity. Qed.

Lemma ser_tensor (v : tensorvar) (include_data : bool) :
  is_var_type (tv_type v) = false -> ser v include_data = tensor_ser v include_data.
Proof. intros H. destruct v; cbn in *. now rewrite H. Qed.

Lemma tensor_type_is_not_var (ty : torch_type) :
  is_tensor_type ty = true -> is_var_type ty = false.
Proof. destruct ty; intros H; try reflexivity; discriminate H. Qed.

Lemma runs_tensor_ser (v : tensorvar) (i o : Z) (os : list Z) (include_data : bool)
  (w : world) :
  obj_id v = Some i -> owners v = Some (o :: os) ->
  runs (tensor_ser v include_data) w
    (Msg (type_name (tv_type v))
       (if include_data then DataNumbers (tolist (storage v)) else DataAbsent)
       GradAbsent i (o :: os) (negb include_data) None) w [].
Proof.
  intros Hid Ho. unfold runs, tensor_ser, read_id. rewrite Hid, Ho. reflexivity.
Qed.

(** X19.  A tensor that is serialized with its data and deserialized, by
    [deser] and the registration of the received message, comes back with
    the same contents, type, id and owners, when the guard lets its numbers
    through and the kernel rebuilds a storage from its list. *)
Theorem tensor_ser_deser_round_trip (v : tensorvar) (i o : Z) (os : list Z)
  (w w2 : world) :
  is_tensor_type (tv_type v) = true ->
  obj_id v = Some i -> owners v = Some (o :: os) ->
  tensor_contents_guard (tolist (storage v)) = Ok (tolist (storage v)) ->
  of_list (tv_type v) (tolist (storage v)) = storage v ->
  exists m t w' evs,
    runs (ser v true) w m w []
    /\ msg_id m = i /\ msg_owners m = o :: os /\ msg_is_pointer m = false
    /\ known_type (msg_torch_type m) = Some (tv_type v)
    /\ runs (bind (deser (tv_type v) m) (fun t => handle_register t m false)) w2 t w' evs
    /\ storage t = storage v /\ tv_type t = tv_type v
    /\ obj_id t = Some i /\ owners t = Some (o :: os) /\ is_pointer t = Some false.
Proof.
  intros Hten Hid Ho Hguard Hlaw.
  pose proof (tensor_type_is_not_var _ Hten) as Hvar.
  exists (tensor_msg (type_name (tv_type v)) (tolist (storage v)) i (o :: os) false).
  do 3 eexists. split.
  { rewrite (ser_tensor v true Hvar). apply (runs_tensor_ser v i o os true w Hid Ho). }
  split; [ reflexivity | ]. split; [ reflexivity | ]. split; [ reflexivity | ].
  split; [ apply known_type_name | ]. split.
  { eapply runs_bind.
    - apply (runs_tensor_deser _ _ _ _ _ _ _ _ Hvar Hguard).
    - apply runs_handle_register. }
  cbn. rewrite Hlaw. repeat split.
Qed.

(** X20.  The message of a tensor serialized without its data says
    [is_pointer] and carries no numbers, whatever the tensor holds; [deser]
    makes an empty tensor of it. *)
Theorem pointer_message_carries_no_data (v : tensorvar) (i o : Z) (os : list Z)
  (w w2 : world) :
  is_tensor_type (tv_type v) = true ->
  obj_id v = Some i -> owners v = Some (o :: os) ->
  let m := Msg (type_name (tv_type v)) DataAbsent GradAbsent i (o :: os) true None in
  runs (ser v false) w m w []
  /\ (forall s, ser (old_set_ v s) false w = ser v false w)
  /\ exists t w' evs,
       runs (deser (tv_type v) m) w2 t w' evs
       /\ storage t = of_list (tv_type v) [] /\ tv_type t = tv_type v.
Proof.
  intros Hten Hid Ho m.
  pose proof (tensor_type_is_not_var _ Hten) as Hvar.
  split.
  { rewrite (ser_tensor v false Hvar). apply (runs_tensor_ser v i o os false w Hid Ho). }
  split.
  { intros s. rewrite (ser_tensor v false Hvar), (ser_tensor (old_set_ v s) false Hvar).
    unfold tensor_ser. reflexivity. }
  do 3 eexists. split.
  { subst m. cbn [deser]. rewrite Hvar. cbn [tensor_deser]. apply runs_new. }
  split; reflexivity.
Qed.

(** X21.  [ser] of a tensor reads [id] and then [owners[0]]: without an id,
    without owners or with an empty list of owners it fails with the error
    of that read, and nothing is done. *)
Theorem ser_needs_id_and_owners (v : tensorvar) (include_data : bool) (w : world) :
  is_tensor_type (tv_type v) = true ->
  (obj_id v = None -> ser v include_data w = (Raise (no_attribute "id"), w, []))
  /\ (forall i, obj_id v = Some i -> owners v = None ->
      ser v include_data w = (Raise (no_attribute "owners"), w, []))
  /\ (forall i, obj_id v = Some i -> owners v = Some [] ->
      ser v include_data w = (Raise (IndexError "list index out of range"), w, [])).
Proof.
  intros Hten. pose proof (tensor_type_is_not_var _ Hten) as Hvar.
  rewrite (ser_tensor v include_data Hvar). unfold tensor_ser, read_id.
  split; [ | split ].
  - intros ->. reflexivity.
  - intros i -> ->. reflexivity.
  - intros i -> ->. reflexivity.
Qed.

End SerdeProperties.

(** * The claims at sample inputs *)

Ltac tracked_sample :=
  repeat constructor; try (now eexists); now do 2 eexists.

Lemma routing_rule_witness :
  let self := pointer_at 1 7 in
  let args := [PTensorVar (pointer_at 2 7)] in
  Forall tracked (operands (pass_args "mul" args [])) /\ tracked self
  /\ (exists command r w' evs,
        method_router (E := QuietWorker) "mul" self args [] w0
        = (r, w', SendCommand 7 command :: evs))
  /\ executed_locally (snd (method_router (E := QuietWorker) "mul" self args [] w0)) = false
  /\ executed_locally (snd (function_router (E := QuietWorker) "mul" args [] w0)) = false.
Proof.
  intros self args.
  assert (Ht : Forall tracked (operands (pass_args "mul" args []))) by tracked_sample.
  assert (Hs : tracked self) by tracked_sample.
  destruct (routing_rule (E := QuietWorker) "mul" self args [] w0 Ht Hs)
    as (_ & Hf & Hm & _).
  destruct (Hm eq_refl) as ((command & _ & _ & Hsend) & Hquiet).
  destruct (Hf eq_refl) as (_ & Hfquiet).
  assert (Ho : owners_of (self :: operands (pass_args "mul" args [])) = [7])
    by reflexivity.
  rewrite Ho in Hsend. destruct Hsend as (r & w' & evs & Hrun & _).
  split; [ exact Ht | ]. split; [ exact Hs | ].
  split; [ now exists command, r, w', evs | ]. split; [ exact Hquiet | exact Hfquiet ].
Defined.

(** C1, the claim as stated fails: a method call on a local [self] with a
    pointer argument is executed locally and not dispatched. *)
Lemma pointer_argument_of_local_self_runs_locally :
  let self := local_tensor 1 [1; 2; 3] in
  let arg := pointer_at 2 1 in
  let evs := snd (method_router (E := QuietWorker) "add" self [PTensorVar arg] [] w0) in
  has_remote (operands (pass_args "add" [PTensorVar self; PTensorVar arg] [])) = true
  /\ executed_locally evs = true
  /\ dispatched evs = false.
Proof. split; [ reflexivity | split; reflexivity ]. Qed.



Lemma multi_party_call_fails_witness :
  let ops := [pointer_at 1 7; pointer_at 2 8] in
  let part := pass_args "mul" (map PTensorVar ops) [] in
  Forall tracked ops /\ has_remote ops = true
  /\ (1 < length (owners_of ops))%nat
  /\ _execute_remote_call (E := QuietWorker) part false w0
     = (Raise UnsupportedMultiPartyError, w0, []).
Proof.
  intros ops part.
  assert (Ht : Forall tracked ops) by tracked_sample.
  assert (Hm : (1 < length (owners_of ops))%nat) by (vm_compute; lia).
  destruct (compile_function "mul" (map PTensorVar ops) []) as [command Hc].
  split; [ exact Ht | ]. split; [ reflexivity | ]. split; [ exact Hm | ].
  apply (multi_party_call_fails (E := QuietWorker) part false command ops w0
           Hc Ht eq_refl Hm).
Defined.

(** C3, the claim as stated fails: the operands of this method call span
    the local worker and the workers 7 and 8, two of them are pointers, and
    since [self] is not a pointer the call is executed locally and
    returns. *)
Lemma local_self_with_pointers_of_two_owners_runs_locally :
  let self := local_tensor 1 [1; 2; 3] in
  let args := [PTensorVar (pointer_at 2 7); PTensorVar (pointer_at 3 8)] in
  let ops := operands (pass_args "addcmul" (PTensorVar self :: args) []) in
  Forall tracked ops /\ has_remote ops = true
  /\ owners_of ops = [0; 7; 8]
  /\ method_router (E := QuietWorker) "addcmul" self args [] w0
     = (Ok PNone, w0, [TorchCall "addcmul"]).
Proof.
  split; [ tracked_sample | ].
  split; [ reflexivity | split; reflexivity ].
Qed.

Lemma fixed_prec_mul_overflow_iff_witness :
  let x := fixed_tensor [150; 275] 2 in
  let y := fixed_tensor [3000; 1000] 3 in
  fixed x 2 /\ fixed y 3
  /\ exists out, fixed_prec_mul x (PTensorVar y) true = Ok out /\ fixed out 2.
Proof.
  intros x y.
  assert (Hx : fixed x 2) by (split; reflexivity).
  assert (Hy : fixed y 3) by (split; reflexivity).
  destruct (fixed_prec_mul_overflow_iff x y true 2 3 Hx Hy) as [_ Hok].
  destruct (Hok ltac:(lia)) as (out & Hrun & Hfix & _).
  split; [ exact Hx | ]. split; [ exact Hy | ]. now exists out.
Defined.

Lemma fixed_prec_add_sub_div_precision_witness :
  let x := fixed_tensor [150; 275] 2 in
  let y := fixed_tensor [3000; 1000] 3 in
  fixed x 2 /\ fixed y 3
  /\ exists out, fixed_prec_add x (PTensorVar y) = Ok out /\ fixed out 3.
Proof.
  intros x y.
  assert (Hx : fixed x 2) by (split; reflexivity).
  assert (Hy : fixed y 3) by (split; reflexivity).
  destruct (fixed_prec_add_sub_div_precision x y 2 3 Hx Hy) as [(out & Hrun & Hfix & _) _].
  split; [ exact Hx | ]. split; [ exact Hy | ]. now exists out.
Defined.

Lemma fixed_prec_trudiv_is_div_witness :
  let x := fixed_tensor [150; 275] 2 in
  let y := fixed_tensor [3000; 1000] 3 in
  fixed x 2 /\ fixed y 3 /\ is_tensor_type (tv_type x) = true
  /\ exists out,
       _execute_fixed_precision_call (E := QuietWorker) x
         (pass_args "trudiv" [PTensorVar x; PTensorVar y] []) [PTensorVar y] [] w0
       = (Ok (PTensorVar out), w0, [])
       /\ fixed out 0.
Proof.
  intros x y.
  assert (Hx : fixed x 2) by (split; reflexivity).
  assert (Hy : fixed y 3) by (split; reflexivity).
  destruct (fixed_prec_trudiv_is_div (E := QuietWorker) x y 2 3 w0 Hx Hy eq_refl)
    as (_ & _ & out & Hrun & Hfix & _).
  split; [ exact Hx | ]. split; [ exact Hy | ]. split; [ reflexivity | ].
  now exists out.
Defined.



Lemma get_send_round_trip_witness :
  locally_owned sample_variable 7 w0 /\ 1 <> local_id w0
  /\ exists p w1 evs1 v2 w2 evs2,
       runs (send_ sample_variable (Worker 1) false) w0 p w1 evs1
       /\ owners p = Some [1]
       /\ runs (get_ p) w1 v2 w2 evs2
       /\ contents v2 = contents sample_variable
       /\ owners v2 = Some [local_id w0].
Proof.
  assert (Hv : locally_owned sample_variable 7 w0).
  { split; [ reflexivity | ]. split; [ reflexivity | ]. split; [ reflexivity | ].
    intros _. split; [ now eexists | ]. split; [ intros H; discriminate H | ].
    split; [ now eexists | ]. split; [ intros H; discriminate H | exact I ]. }
  assert (Hd : 1 <> local_id w0) by discriminate.
  split; [ exact Hv | ]. split; [ exact Hd | ].
  destruct (get_send_round_trip sample_variable 7 1 w0 Hv Hd)
    as (p & w1 & evs1 & v2 & w2 & evs2 & Hs & _ & Ho & _ & Hg & _ & Hc & Ho2 & _).
  exists p, w1, evs1, v2, w2, evs2. auto.
Defined.

(** C8, the claim as stated fails when the one destination is the local
    worker itself: the local storage is emptied by [send_] all the same, and
    [get_] returns the object as it is, without its data. *)
Lemma send_to_the_local_worker_loses_the_data :
  locally_owned (local_tensor 8 [1; 2; 3]) 8 w0
  /\ exists p w1 evs1 v2 w2 evs2,
       send_ (local_tensor 8 [1; 2; 3]) (Worker (local_id w0)) false w0
       = (Ok p, w1, evs1)
       /\ get_ p w1 = (Ok v2, w2, evs2)
       /\ contents (local_tensor 8 [1; 2; 3]) = [1; 2; 3]
       /\ contents v2 = []
       /\ contents v2 <> contents (local_tensor 8 [1; 2; 3]).
Proof.
  split.
  { split; [ reflexivity | ]. split; [ reflexivity | ]. split; [ reflexivity | ].
    intros H. discriminate H. }
  do 6 eexists. split; [ reflexivity | ]. split; [ reflexivity | ].
  split; [ reflexivity | ]. split; [ reflexivity | discriminate ].
Qed.

(** * The further properties at sample inputs *)

Lemma sample_tensor_locally_owned : locally_owned (local_tensor 8 [1; 2; 3]) 8 w0.
Proof.
  split; [ reflexivity | ]. split; [ reflexivity | ]. split; [ reflexivity | ].
  intros H. discriminate H.
Defined.

Lemma sample_variable_ready : var_ready sample_variable.
Proof.
  split; [ now eexists | ]. split; [ intros H; discriminate H | ].
  split; [ now eexists | ]. split; [ intros H; discriminate H | exact I ].
Defined.


Lemma fixed_precision_other_methods_fall_through_witness :
  let x := fixed_tensor [150; 275] 2 in
  ~ In "abs" fixed_prec_names
  /\ _execute_fixed_precision_call (E := QuietWorker) x
       (pass_args "abs" [PTensorVar x] []) [] [] w0
     = (Ok PNone, w0, [TorchCall "abs"]).
Proof.
  intros x.
  assert (H : ~ In "abs" fixed_prec_names).
  { intros [H | [H | [H | [H | [H | []]]]]]; discriminate H. }
  split; [ exact H | ].
  exact (fixed_precision_other_methods_fall_through (E := QuietWorker) x
           (pass_args "abs" [PTensorVar x] []) [] [] w0 H).
Defined.

Lemma local_call_registers_result_witness :
  let x := local_tensor 1 [1; 2; 3] in
  let E := AnsweringWorker (OneResponse (Numeric PNone)) in
  torch_func (External := E) "abs" [PTensorVar x] [] = Ok (PTensorVar x)
  /\ _execute_local_call (E := E) (PTensorVar x) (pass_args "abs" [PTensorVar x] [])
       [] [] false w0
     = (Ok (PTensorVar (set_registration x (next_id w0) [local_id w0] false)),
        with_entry w0 (next_id w0) [local_id w0] false false,
        [TorchCall "abs"; Register (next_id w0) [local_id w0] false false]).
Proof.
  intros x E. split; [ reflexivity | ].
  exact (local_call_registers_result (E := E) (PTensorVar x)
           (pass_args "abs" [PTensorVar x] []) [] [] false w0 (PTensorVar x) eq_refl).
Defined.

Lemma remote_call_plain_responses_witness :
  let ops := [pointer_at 1 7; pointer_at 2 7] in
  let part := pass_args "mul" (map PTensorVar ops) [] in
  let rs := ResponseList [Numeric (PInt 1); Numeric (PInt 2)] in
  Forall tracked ops /\ has_remote ops = true /\ owners_of ops = [7]
  /\ exists command,
       _execute_remote_call (E := AnsweringWorker rs) part false w0
       = (Ok (PSeq [PInt 1; PInt 2], true, false), w0, [SendCommand 7 command]).
Proof.
  intros ops part rs.
  assert (Ht : Forall tracked ops) by tracked_sample.
  destruct (compile_function "mul" (map PTensorVar ops) []) as [command Hc].
  split; [ exact Ht | ]. split; [ reflexivity | ]. split; [ reflexivity | ].
  exists command.
  exact (remote_call_plain_responses (E := AnsweringWorker rs) part false command ops 7
           rs w0 Hc Ht eq_refl eq_refl eq_refl eq_refl).
Defined.

Lemma assemble_result_pointer_without_data_witness :
  let reg := kw (Some 5) (Some [7]) (Some true) false in
  known_type "torch.FloatTensor" = Some FloatTensor
  /\ exists p w' evs,
       runs (_assemble_result_pointer (K := ListKernel)
               (PointerMsg reg "torch.FloatTensor" None None)) w0 p w' evs
       /\ obj_id p = Some 5 /\ owners p = Some [7] /\ is_pointer p = Some true.
Proof.
  intros reg. split; [ reflexivity | ].
  destruct (assemble_result_pointer_without_data (K := ListKernel) reg
              "torch.FloatTensor" FloatTensor None 5 w0 eq_refl eq_refl)
    as (p & w' & evs & Hrun & _ & Hid & Ho & Hp & _).
  exists p, w', evs. auto.
Defined.

Lemma send_pointer_keeps_the_object_witness :
  let v := local_tensor 8 [1; 2; 3] in
  obj_id v = Some 8
  /\ exists w',
       runs (send_ v (WorkerList [1; 2]) true) w0 v w' [SendObj 1 8; SendObj 2 8]
       /\ objects w' = objects w0.
Proof.
  intros v. split; [ reflexivity | ].
  destruct (send_pointer_keeps_the_object v 8 [1; 2] w0 eq_refl)
    as (w' & Hrun & Ho & _).
  exists w'. split; [ exact Hrun | exact Ho ].
Defined.


Lemma get_needs_a_single_owner_witness :
  let p := set_registration (fresh_obj (K := ListKernel) FloatTensor []) 8 [1; 2] true in
  owners p = Some [1; 2] /\ length [1; 2] <> 1%nat
  /\ get_ p w0 = (Raise MultiOwnerNotSupportedError, w0, []).
Proof.
  intros p.
  assert (Hlen : length [1; 2] <> 1%nat) by discriminate.
  split; [ reflexivity | ]. split; [ exact Hlen | ].
  exact (get_needs_a_single_owner p [1; 2] w0 eq_refl Hlen).
Defined.

Lemma get_of_local_value_is_identity_witness :
  let p := local_tensor 8 [1; 2; 3] in
  owners p = Some [local_id w0] /\ get_ p w0 = (Ok p, w0, []).
Proof.
  intros p. split; [ reflexivity | ].
  exact (get_of_local_value_is_identity p w0 eq_refl).
Defined.

Lemma send_to_several_workers_cannot_be_got_witness :
  let v := local_tensor 8 [1; 2; 3] in
  locally_owned v 8 w0 /\ length [1; 2] <> 1%nat
  /\ exists p w1 evs1,
       runs (send_ v (WorkerList [1; 2]) false) w0 p w1 evs1
       /\ owners p = Some [1; 2]
       /\ get_ p w1 = (Raise MultiOwnerNotSupportedError, w1, []).
Proof.
  intros v.
  assert (Hlen : length [1; 2] <> 1%nat) by discriminate.
  split; [ exact sample_tensor_locally_owned | ]. split; [ exact Hlen | ].
  destruct (send_to_several_workers_cannot_be_got v 8 [1; 2] w0
              sample_tensor_locally_owned Hlen)
    as (p & w1 & evs1 & Hrun & _ & Ho & _ & Hget).
  exists p, w1, evs1. auto.
Defined.

Lemma repr_follows_the_owners_witness :
  let v := local_tensor 8 [1; 2; 3] in
  locally_owned v 8 w0 /\ is_tensor_type (tv_type v) = true /\ 1 <> local_id w0
  /\ new___repr__ v w0 = (Ok OldRepr, w0, [])
  /\ exists p w1 evs1,
       runs (send_ v (Worker 1) false) w0 p w1 evs1
       /\ new___repr__ p w1 = (Ok (Locations "torch.FloatTensor" [1]), w1, []).
Proof.
  intros v.
  assert (Hd : 1 <> local_id w0) by discriminate.
  destruct (repr_follows_the_owners v 8 1 w0 sample_tensor_locally_owned eq_refl Hd)
    as (Hlocal & p & w1 & evs1 & v2 & w2 & evs2 & Hsend & Hrepr & _).
  split; [ exact sample_tensor_locally_owned | ]. split; [ reflexivity | ].
  split; [ exact Hd | ]. split; [ exact Hlocal | ].
  exists p, w1, evs1. split; [ exact Hsend | exact Hrepr ].
Defined.


Lemma owners_property_registers_once_witness :
  let self := fresh_obj (K := ListKernel) VariableT [1; 2; 3] in
  owners self = None
  /\ exists self',
       getattr_owners self w0
       = (Ok ([local_id w0], self'),
          with_entry w0 (next_id w0) [local_id w0] false false,
          [Register (next_id w0) [local_id w0] false false])
       /\ obj_id self' = Some (next_id w0).
Proof.
  intros self. split; [ reflexivity | ].
  pose proof (owners_property_registers_once self w0 eq_refl) as H.
  destruct H as (self' & Hrun & Hid & _).
  exists self'. split; [ exact Hrun | exact Hid ].
Defined.

Lemma var_to_pointer_empties_the_chain_witness :
  var_ready sample_variable
  /\ exists r w' evs,
       runs (_var_to_pointer sample_variable) w0 r w' evs
       /\ chain_pointer r /\ grad_depth r = 1%nat.
Proof.
  split; [ exact sample_variable_ready | ].
  destruct (var_to_pointer_empties_the_chain sample_variable w0 sample_variable_ready)
    as (r & w' & evs & Hrun & Hc & Hd & _).
  exists r, w', evs. split; [ exact Hrun | ]. split; [ exact Hc | exact Hd ].
Defined.

Lemma module_get_of_local_parameters_witness :
  let parameters := [local_tensor 1 [1]; local_tensor 2 [2]] in
  Forall (fun p => owners p = Some [local_id w0]) parameters
  /\ module_get_ parameters w0 = (Ok parameters, w0, []).
Proof.
  intros parameters.
  assert (H : Forall (fun p => owners p = Some [local_id w0]) parameters)
    by (repeat constructor).
  split; [ exact H | ].
  exact (module_get_of_local_parameters parameters w0 H).
Defined.

Lemma tensor_ser_deser_round_trip_witness :
  let v := local_tensor 8 [1; 2; 3] in
  is_tensor_type (tv_type v) = true /\ obj_id v = Some 8 /\ owners v = Some [0]
  /\ exists m t w' evs,
       runs (ser v true) w0 m w0 []
       /\ runs (bind (deser (E := QuietWorker) (tv_type v) m)
                  (fun t => handle_register t m false)) w0 t w' evs
       /\ storage t = storage v /\ obj_id t = Some 8.
Proof.
  intros v.
  destruct (tensor_ser_deser_round_trip (E := QuietWorker) v 8 0 [] w0 w0
              eq_refl eq_refl eq_refl eq_refl eq_refl)
    as (m & t & w' & evs & Hser & _ & _ & _ & _ & Hdeser & Hst & _ & Hid & _).
  split; [ reflexivity | ]. split; [ reflexivity | ]. split; [ reflexivity | ].
  exists m, t, w', evs. auto.
Defined.

Lemma pointer_message_carries_no_data_witness :
  let v := local_tensor 8 [1; 2; 3] in
  is_tensor_type (tv_type v) = true /\ obj_id v = Some 8 /\ owners v = Some [0]
  /\ runs (ser v false) w0
       (Msg "torch.FloatTensor" DataAbsent GradAbsent 8 [0] true None) w0 [].
Proof.
  intros v.
  destruct (pointer_message_carries_no_data (E := QuietWorker) v 8 0 [] w0 w0
              eq_refl eq_refl eq_refl) as (Hser & _).
  split; [ reflexivity | ]. split; [ reflexivity | ]. split; [ reflexivity | ].
  exact Hser.
Defined.

Lemma ser_needs_id_and_owners_witness :
  let v := fresh_obj (K := ListKernel) FloatTensor [1; 2; 3] in
  is_tensor_type (tv_type v) = true
  /\ ser v true w0 = (Raise (no_attribute "id"), w0, []).
Proof.
  intros v. split; [ reflexivity | ].
  exact (proj1 (ser_needs_id_and_owners v true w0 eq_refl) eq_refl).
Defined.
